(** * diskcache: an on-disk cache of a remote file tree

    A shallow embedding of package [diskcache] (type [Cache] with [Open],
    [ReadFile], [Delete], [Expire], the [Loader] interface and the
    [metaDisk] record) over a small model of the parts of the Go standard
    library and of the POSIX file system that the package calls, followed
    by the properties of the cache that the specification states. *)

From Stdlib Require Import ZArith Ascii String DecimalString.
From stdpp Require Import base gmap strings list.

Local Open Scope string_scope.
Local Open Scope Z_scope.

(** ** The Go standard library, as far as [diskcache] calls it *)

(** *** crypto/sha1 and fmt's %x

    [sha1.Sum] over the bytes of a string; words are 32-bit values kept in
    [Z], every addition and rotation reduced modulo 2^32. *)
Module sha1.

Definition w32 (x : Z) : Z := Z.land x 0xFFFFFFFF.

Definition add32 (x y : Z) : Z := w32 (x + y).

Definition rotl (n x : Z) : Z :=
  w32 (Z.lor (Z.shiftl x n) (Z.shiftr x (32 - n))).

Definition bytes_of (s : string) : list Z :=
  (fun a => Z.of_N (N_of_ascii a)) <$> list_ascii_of_string s.

(** big-endian bytes of the low [8 * n] bits of [x] *)
Fixpoint be_bytes (n : nat) (x : Z) : list Z :=
  match n with
  | O => []
  | S n' => Z.land (Z.shiftr x (8 * Z.of_nat n')) 0xFF :: be_bytes n' x
  end.

Definition be_word (bs : list Z) : Z :=
  foldl (fun acc b => Z.lor (Z.shiftl acc 8) b) 0 bs.

(** message, 0x80, zeros up to 56 modulo 64, bit length on 8 bytes *)
Definition pad (msg : list Z) : list Z :=
  let n := length msg in
  let k := ((119 - n mod 64) mod 64)%nat in
  msg ++ [0x80] ++ replicate k 0 ++ be_bytes 8 (8 * Z.of_nat n).

Fixpoint words (n : nat) (bs : list Z) : list Z :=
  match n with
  | O => []
  | S n' => be_word (take 4 bs) :: words n' (drop 4 bs)
  end.

(** the message schedule, most recent word first *)
Fixpoint schedule (n : nat) (rev_ws : list Z) : list Z :=
  match n with
  | O => rev_ws
  | S n' =>
      let w := rotl 1 (Z.lxor (Z.lxor (rev_ws !!! 2%nat) (rev_ws !!! 7%nat))
                              (Z.lxor (rev_ws !!! 13%nat) (rev_ws !!! 15%nat))) in
      schedule n' (w :: rev_ws)
  end.

Definition state : Type := Z * Z * Z * Z * Z.

Definition round (i : nat) (st : state) (w : Z) : state :=
  let '(a, b, c, d, e) := st in
  let '(f, k) :=
    if (i <? 20)%nat then
      (Z.lor (Z.land b c) (Z.land (Z.lxor b 0xFFFFFFFF) d), 0x5A827999)
    else if (i <? 40)%nat then
      (Z.lxor (Z.lxor b c) d, 0x6ED9EBA1)
    else if (i <? 60)%nat then
      (Z.lor (Z.lor (Z.land b c) (Z.land b d)) (Z.land c d), 0x8F1BBCDC)
    else
      (Z.lxor (Z.lxor b c) d, 0xCA62C1D6) in
  let t := add32 (add32 (add32 (add32 (rotl 5 a) f) e) k) w in
  (t, a, rotl 30 b, c, d).

Fixpoint rounds (i : nat) (ws : list Z) (st : state) : state :=
  match ws with
  | [] => st
  | w :: ws' => rounds (S i) ws' (round i st w)
  end.

Definition block (h : state) (chunk : list Z) : state :=
  let ws := rev (schedule 64 (rev (words 16 chunk))) in
  let '(h0, h1, h2, h3, h4) := h in
  let '(a, b, c, d, e) := rounds 0 ws h in
  (add32 h0 a, add32 h1 b, add32 h2 c, add32 h3 d, add32 h4 e).

Fixpoint blocks (n : nat) (h : state) (bs : list Z) : state :=
  match n with
  | O => h
  | S n' => blocks n' (block h (take 64 bs)) (drop 64 bs)
  end.

Definition init : state :=
  (0x67452301, 0xEFCDAB89, 0x98BADCFE, 0x10325476, 0xC3D2E1F0).

(** [sha1.Sum]: the twenty bytes of the digest *)
Definition Sum (s : string) : list Z :=
  let bs := pad (bytes_of s) in
  let '(h0, h1, h2, h3, h4) := blocks (length bs / 64) init bs in
  be_bytes 4 h0 ++ be_bytes 4 h1 ++ be_bytes 4 h2 ++ be_bytes 4 h3 ++ be_bytes 4 h4.

Definition hex_digit (x : Z) : ascii :=
  ascii_of_N (Z.to_N (if x <? 10 then 48 + x else 87 + x)).

(** [fmt.Sprintf("%x", sum[:])]: two lower-case hexadecimal digits a byte *)
Fixpoint hex (bs : list Z) : string :=
  match bs with
  | [] => ""
  | b :: bs' => String (hex_digit (Z.shiftr b 4)) (String (hex_digit (Z.land b 0xF)) (hex bs'))
  end.

End sha1.

(** *** path.Clean

    The library drops empty and [.] elements and lets [..] remove the
    element before it.  On a rooted path a [..] at the root removes
    nothing and the result of cleaning nothing is [/]; on a path that is
    not rooted a [..] with nothing to remove stays and the result of
    cleaning nothing is [.]. *)
Module pathpkg.

Fixpoint elements (cur : string) (s : string) : list string :=
  match s with
  | EmptyString => [cur]
  | String a s' =>
      if Ascii.eqb a "/" then cur :: elements "" s'
      else elements (cur +:+ String a "") s'
  end.

Definition step (stack : list string) (e : string) : list string :=
  if String.eqb e "" then stack
  else if String.eqb e "." then stack
  else if String.eqb e ".." then tail stack
  else e :: stack.

Definition step_rel (stack : list string) (e : string) : list string :=
  if String.eqb e "" then stack
  else if String.eqb e "." then stack
  else if String.eqb e ".." then
    match stack with
    | top :: rest => if String.eqb top ".." then e :: stack else rest
    | [] => [e]
    end
  else e :: stack.

Definition rooted (path : string) : bool :=
  match path with
  | String a _ => Ascii.eqb a "/"
  | EmptyString => false
  end.

Definition Clean (path : string) : string :=
  if rooted path then
    match rev (foldl step [] (elements "" path)) with
    | [] => "/"
    | es => foldl (fun acc e => acc +:+ "/" +:+ e) "" es
    end
  else
    match rev (foldl step_rel [] (elements "" path)) with
    | [] => "."
    | e :: es => foldl (fun acc e => acc +:+ "/" +:+ e) e es
    end.

End pathpkg.

(** *** strconv.Atoi and fmt.Sprint on integers (used by the test loader) *)
Definition strconv_Atoi (s : string) : option Z :=
  Z.of_int <$> NilZero.int_of_string s.

Definition fmt_Sprint (n : Z) : string := NilZero.string_of_int (Z.to_int n).

(** *** package time

    A [time.Time] is the number of nanoseconds since the Unix epoch, a
    [time.Duration] a number of nanoseconds. *)
Definition time_Unix (sec nsec : Z) : Z := sec * 1000000000 + nsec.

(** the zero [time.Time]: January 1, year 1, 00:00:00 UTC *)
Definition time_zero : Z := time_Unix (-62135596800) 0.

Definition time_Add (t d : Z) : Z := t + d.

Definition time_Before (t u : Z) : bool := t <? u.

(** *** errors *)
Inductive error : Type :=
| ENOENT (name : string)                 (* no such file or directory *)
| EEXIST (name : string)                 (* file exists *)
| ErrClosed                              (* file already closed *)
| ErrSyntax                              (* encoding/json: not a JSON document *)
| Errorf (format : string) (e : error)   (* fmt.Errorf(format, e) *)
| ErrRemote (msg : string).              (* an error a Loader produced *)

Definition os_IsNotExist (e : error) : bool :=
  match e with ENOENT _ => true | _ => false end.

(** a Go result pair [(v, err)] with exactly one side set *)
Inductive result (A : Type) : Type :=
| Ok (v : A)
| Err (e : error).
Arguments Ok {A} v.
Arguments Err {A} e.

(** ** Data model of the cache *)

(** metaDisk is the on-disk metadata storage format *)
Record metaDisk : Type := mkMetaDisk {
  mPath : string;
  mCreateTime : Z;
  mRefreshTime : Z;
  mLoad : option string;       (* []byte; [None] is the nil slice *)
}.

(** [var meta metaDisk] *)
Definition metaDisk_zero : metaDisk :=
  {| mPath := ""; mCreateTime := time_zero; mRefreshTime := time_zero; mLoad := None |}.

(** What a regular file holds.  encoding/json is not part of the
    repository: the JSON text of a [metaDisk] is represented by the record
    it encodes, every other content by its bytes. *)
Inductive contents : Type :=
| Raw (b : string)
| Json (m : metaDisk).

(** [len(b)]; of a JSON text only that it is not empty is known *)
Definition contents_len (c : contents) : Z :=
  match c with
  | Raw b => Z.of_nat (String.length b)
  | Json _ => 1
  end.

Definition json_Marshal (m : metaDisk) : result contents := Ok (Json m).

Definition json_Unmarshal (js : contents) : result metaDisk :=
  match js with
  | Json m => Ok m
  | Raw _ => Err ErrSyntax
  end.

(** bytes written at the end of a file; the files written through a handle
    are the fresh [.next] files, which hold no JSON document *)
Definition write_bytes (old : contents) (b : string) : contents :=
  match old with
  | Raw b0 => Raw (b0 +:+ b)
  | Json _ => Raw b
  end.

Record inode : Type := mkInode {
  iData : contents;
  iModTime : Z;
}.

(** an [*os.File]: an open file description, which may hold the
    exclusive flock(2) lock of its file: [ofLock] says that the description
    was granted the lock, which it holds for as long as it is open.  A handle reaches its file through
    the name it was opened under: the cache closes [.next] before renaming
    it and uses no handle after removing the file below it, so wherever a
    handle is used its name still leads to the file it was opened on. *)
Record openFile : Type := mkOpenFile {
  ofName : string;
  ofClosed : bool;
  ofLock : bool;
}.

Definition File : Type := nat.

Record FileInfo : Type := mkFileInfo {
  fiSize : Z;
  fiModTime : Z;
}.

(** what one call of [Loader.Load] did: the bytes it wrote to [target] and
    the three values it returned *)
Record LoadResult : Type := mkLoadResult {
  lrWritten : string;
  lrCacheValid : bool;
  lrNewMeta : option string;
  lrErr : option error;
}.

(** Loader is the interface Cache uses to load remote file content; [S] is
    the state of the remote side. *)
Record Loader (S : Type) : Type := mkLoader {
  Load : string -> option string -> S -> LoadResult * S;
}.
Arguments Load {S} _ _ _ _.
Arguments mkLoader {S} _.

(** A Cache provides read-only access to a remote file tree, caching
    opened files on local disk. *)
Record Cache (S : Type) : Type := mkCache {
  dir : string;
  loader : Loader S;
  atomicExpiration : Z;
  atomicMaxData : Z;
}.
Arguments dir {S} _.
Arguments loader {S} _.
Arguments atomicExpiration {S} _.
Arguments atomicMaxData {S} _.
Arguments mkCache {S} _ _ _ _.

(** one entry of the log of loader invocations *)
Record LoadCall : Type := mkLoadCall {
  lcPath : string;
  lcMeta : option string;
  lcResult : LoadResult;
}.

(** The world the cache runs in: the regular files of the cache tree by
    name (one name a file: the cache makes no hard links), the directories
    made, the [*os.File] values handed out so far, the clock, the remote
    side, and the log of the loader's invocations. *)
Record World (S : Type) : Type := mkWorld {
  wFS : gmap string inode;
  wDirs : gset string;
  wOpen : list openFile;
  wNow : Z;
  wRemote : S;
  wCalls : list LoadCall;
}.
Arguments wFS {S} _.
Arguments wDirs {S} _.
Arguments wOpen {S} _.
Arguments wNow {S} _.
Arguments wRemote {S} _.
Arguments wCalls {S} _.
Arguments mkWorld {S} _ _ _ _ _ _.

(** ** A state monad over the world

    Every operation of the cache reads and changes the world; Go's result
    pairs are returned as they are. *)
Definition M (S A : Type) : Type := World S -> A * World S.

Definition ret {S A : Type} (a : A) : M S A := fun w => (a, w).

Definition bind {S A B : Type} (m : M S A) (k : A -> M S B) : M S B :=
  fun w => let '(a, w') := m w in k a w'.

(** [defer cleanup; body]: the deferred call runs once the body has its
    return values *)
Definition defer {S A B : Type} (cleanup : M S B) (body : M S A) : M S A :=
  bind body (fun r => bind cleanup (fun _ => ret r)).

Notation "'let*' x ':=' m 'in' k" := (bind m (fun x => k))
  (at level 10, x name, m at level 100, k at level 200).
Notation "'let*' ' p ':=' m 'in' k" := (bind m (fun x => match x with p => k end))
  (at level 10, p pattern, m at level 100, k at level 200).
Notation "m ';;' k" := (bind m (fun _ => k))
  (at level 100, k at level 200, right associativity).

(** ** The file system and the clock: packages os, io/ioutil, syscall, time *)
Section OS.
Context {S : Type}.

Definition with_fs (fs : gmap string inode) (w : World S) : World S :=
  mkWorld fs (wDirs w) (wOpen w) (wNow w) (wRemote w) (wCalls w).

Definition with_dirs (ds : gset string) (w : World S) : World S :=
  mkWorld (wFS w) ds (wOpen w) (wNow w) (wRemote w) (wCalls w).

Definition with_open (fs : list openFile) (w : World S) : World S :=
  mkWorld (wFS w) (wDirs w) fs (wNow w) (wRemote w) (wCalls w).

Definition with_now (t : Z) (w : World S) : World S :=
  mkWorld (wFS w) (wDirs w) (wOpen w) t (wRemote w) (wCalls w).

Definition with_remote (s : S) (w : World S) : World S :=
  mkWorld (wFS w) (wDirs w) (wOpen w) (wNow w) s (wCalls w).

Definition with_calls (cs : list LoadCall) (w : World S) : World S :=
  mkWorld (wFS w) (wDirs w) (wOpen w) (wNow w) (wRemote w) cs.

Definition info (nd : inode) : FileInfo :=
  {| fiSize := contents_len (iData nd); fiModTime := iModTime nd |}.

(** [time.Now()].  The clock does not move while one operation of the
    cache runs: a file made during an operation carries the instant the
    operation reads later on.  Time passes between operations
    ([advance]). *)
Definition time_Now : M S Z := fun w => (wNow w, w).

(** time passing between two operations *)
Definition advance (dt : Z) (w : World S) : World S := with_now (wNow w + dt) w.

Definition os_Stat (name : string) : M S (result FileInfo) := fun w =>
  match wFS w !! name with
  | Some nd => (Ok (info nd), w)
  | None => (Err (ENOENT name), w)
  end.

Inductive openFlag : Type :=
| O_RDONLY
| O_RDWR
| O_RDWR_CREATE_EXCL.       (* os.O_RDWR|os.O_CREATE|os.O_EXCL *)

(** a new [*os.File] on the file called [name] *)
Definition new_File (name : string) : M S (result File) := fun w =>
  (Ok (length (wOpen w)),
   with_open (wOpen w ++ [mkOpenFile name false false]) w).

Definition os_OpenFile (name : string) (flag : openFlag) : M S (result File) := fun w =>
  match flag, wFS w !! name with
  | O_RDWR_CREATE_EXCL, Some _ => (Err (EEXIST name), w)
  | O_RDWR_CREATE_EXCL, None =>
      new_File name (with_fs (<[name := mkInode (Raw "") (wNow w)]> (wFS w)) w)
  | _, Some _ => new_File name w
  | _, None => (Err (ENOENT name), w)
  end.

Definition os_Open (name : string) : M S (result File) := os_OpenFile name O_RDONLY.

(** the open file description behind a handle that has not been closed *)
Definition open_file (w : World S) (f : File) : option openFile :=
  match wOpen w !! f with
  | Some o => if ofClosed o then None else Some o
  | None => None
  end.

(** closing releases the lock the description holds: a lock is held
    through a description that was granted it and is still open (see
    [locked]); the closed description keeps the record that it was
    granted the lock *)
Definition File_Close (f : File) : M S (option error) := fun w =>
  match open_file w f with
  | Some o => (None, with_open (<[f := mkOpenFile (ofName o) true (ofLock o)]> (wOpen w)) w)
  | None => (Some ErrClosed, w)
  end.

(** the file an open handle reads and writes *)
Definition file_of (w : World S) (f : File) : option (string * inode) :=
  match open_file w f with
  | Some o => match wFS w !! ofName o with
              | Some nd => Some (ofName o, nd)
              | None => None
              end
  | None => None
  end.

(** [f.Stat()]; on an open handle whose file is there it does not fail
    (no I/O fault is modelled) *)
Definition File_Stat (f : File) : M S (result FileInfo) := fun w =>
  match file_of w f with
  | Some (_, nd) => (Ok (info nd), w)
  | None => (Err ErrClosed, w)
  end.

Definition ioutil_ReadAll (f : File) : M S (result contents) := fun w =>
  match file_of w f with
  | Some (_, nd) => (Ok (iData nd), w)
  | None => (Err ErrClosed, w)
  end.

(** [f.Write(b)] for a non-empty [b] *)
Definition File_Write (f : File) (b : string) : M S (option error) := fun w =>
  match file_of w f with
  | Some (name, nd) =>
      (None, with_fs (<[name := mkInode (write_bytes (iData nd) b) (wNow w)]> (wFS w)) w)
  | None => (Some ErrClosed, w)
  end.

(** [ioutil.WriteFile]: open with O_WRONLY|O_CREATE|O_TRUNC, write, close *)
Definition ioutil_WriteFile (name : string) (data : contents) : M S (option error) := fun w =>
  (None, with_fs (<[name := mkInode data (wNow w)]> (wFS w)) w).

Definition os_Remove (name : string) : M S (option error) := fun w =>
  match wFS w !! name with
  | Some _ => (None, with_fs (delete name (wFS w)) w)
  | None => (Some (ENOENT name), w)
  end.

Definition os_Rename (oldname newname : string) : M S (option error) := fun w =>
  match wFS w !! oldname with
  | Some nd => (None, with_fs (<[newname := nd]> (delete oldname (wFS w))) w)
  | None => (Some (ENOENT oldname), w)
  end.

(** [os.Chtimes]; it fails on a missing file and for no other reason
    (no permissions are modelled) *)
Definition os_Chtimes (name : string) (atime mtime : Z) : M S (option error) := fun w =>
  match wFS w !! name with
  | Some nd => (None, with_fs (<[name := mkInode (iData nd) mtime]> (wFS w)) w)
  | None => (Some (ENOENT name), w)
  end.

(** [os.Mkdir]; it fails when the name is taken and for no other reason:
    the names are flat, so that no parent directory is looked at, and no
    permissions are modelled *)
Definition os_Mkdir (name : string) : M S (option error) := fun w =>
  if bool_decide (name ∈ wDirs w) then (Some (EEXIST name), w)
  else match wFS w !! name with
       | Some _ => (Some (EEXIST name), w)
       | None => (None, with_dirs ({[name]} ∪ wDirs w) w)
       end.

(** [fi, err := os.Stat(dir); err != nil || !fi.IsDir()] *)
Definition not_a_directory (name : string) : M S bool := fun w =>
  (negb (bool_decide (name ∈ wDirs w)), w).

(** [syscall.Flock(fd, syscall.LOCK_EX)].  A lock held elsewhere makes
    the caller wait; the operations are taken one at a time, so the wait
    is not modelled and the lock is granted. *)
Definition syscall_Flock (f : File) : M S (option error) := fun w =>
  match open_file w f with
  | Some o => (None, with_open (<[f := mkOpenFile (ofName o) false true]> (wOpen w)) w)
  | None => (Some ErrClosed, w)
  end.

(** whether some open handle holds the lock of the file called [name] *)
Definition locked (w : World S) (name : string) : bool :=
  existsb (fun o => negb (ofClosed o) && ofLock o && String.eqb (ofName o) name) (wOpen w).

(** [l.Load(path, target, meta)]: the loader writes to [target], moves
    the remote side on and returns; the call is logged. *)
Definition Loader_Load (l : Loader S) (path : string) (target : File)
    (meta : option string) : M S (bool * option string * option error) := fun w =>
  let '(r, s) := Load l path meta (wRemote w) in
  let w1 := with_remote s w in
  let w2 := if String.eqb (lrWritten r) "" then w1
            else snd (File_Write target (lrWritten r) w1) in
  ((lrCacheValid r, lrNewMeta r, lrErr r),
   with_calls (wCalls w2 ++ [mkLoadCall path meta r]) w2).

End OS.

(** [filepath.Join]: the elements that are not empty, joined with a
    slash, and the result cleaned ([filepath.Clean] is [path.Clean] where
    the separator is the slash) *)
Definition filepath_Join (elems : list string) : string :=
  match filter (fun e => e ≠ "") elems with
  | [] => ""
  | e :: es => pathpkg.Clean (foldl (fun acc x => acc +:+ "/" +:+ x) e es)
  end.

(** ** Package diskcache *)
Section Diskcache.
Context {S : Type}.

(** New returns a new Cache that reads files from loader, caching in the
    directory dir.  If dir does not exist, New will attempt to create it. *)
Definition New (dir : string) (loader : Loader S) : M S (result (Cache S)) :=
  let* missing := not_a_directory dir in
  let* err := (if missing then os_Mkdir dir else ret None) in
  match err with
  | Some err => ret (Err err)
  | None =>
      let c := {| dir := dir; loader := loader;
                  atomicExpiration := 0; atomicMaxData := 0 |} in
      ret (Ok c)
  end.

(** SetExpiration sets the duration after which a cached copy is
    considered to have expired.  If the duration d is zero (the default),
    cached copies never expire. *)
Definition SetExpiration (c : Cache S) (d : Z) : Cache S :=
  {| dir := dir c; loader := loader c;
     atomicExpiration := d; atomicMaxData := atomicMaxData c |}.

Definition expiration (c : Cache S) : Z := atomicExpiration c.

(** SetMaxData sets the maximum bytes of data to hold in cached copies. *)
Definition SetMaxData (c : Cache S) (max : Z) : Cache S :=
  {| dir := dir c; loader := loader c;
     atomicExpiration := atomicExpiration c; atomicMaxData := max |}.

Definition maxData (c : Cache S) : Z := atomicMaxData c.

Definition locate (c : Cache S) (path : string) : M S (string * string) :=
  let cleaned := pathpkg.Clean ("/" +:+ path) in
  let sum := sha1.Sum cleaned in
  let h := sha1.hex sum in
  let parent := filepath_Join [dir c; substring 0 3 h] in
  os_Mkdir parent ;;
  ret (cleaned, filepath_Join [dir c; substring 0 3 h; substring 3 (String.length h - 3) h]).

Definition metaLock (c : Cache S) (prefix : string) : M S (result File) :=
  let name := prefix +:+ ".meta" in
  let* r := os_OpenFile name O_RDWR in
  match r with
  | Err err => ret (Err err)
  | Ok f =>
      let* lk := syscall_Flock f in
      match lk with
      | Some err => File_Close f ;; ret (Err err)
      | None => ret (Ok f)
      end
  end.

Definition checkDataLimit (c : Cache S) (newSize : Z) : M S unit :=
  ret tt.

(** [d == 0 || time.Now().Before(fi.ModTime().Add(d))] *)
Definition unexpired (d : Z) (fi : FileInfo) : M S bool :=
  if d =? 0 then ret true
  else let* now := time_Now in ret (time_Before now (time_Add (fiModTime fi) d)).

(** The body of Open from "Read metadata" on, run with the meta lock
    held: [errData] tells whether [.data] could be opened. *)
Definition refresh (c : Cache S) (path prefix : string) (metaFile : File)
    (errData : option error) : M S (result File) :=
  (* Read metadata. *)
  let* r := ioutil_ReadAll metaFile in
  match r with
  | Err err => ret (Err (Errorf "reading metadata file: %v" err))
  | Ok js =>
  match (if 0 <? contents_len js then json_Unmarshal js else Ok metaDisk_zero) with
  | Err err => ret (Err (Errorf "reading metadata file: %v" err))
  | Ok meta =>
  let* meta :=
    match errData with
    | Some _ =>
        os_Remove (prefix +:+ ".data") ;;
        ret {| mPath := mPath meta; mCreateTime := mCreateTime meta;
               mRefreshTime := mRefreshTime meta; mLoad := None |}
    | None => ret meta
    end in
  let* r := os_OpenFile (prefix +:+ ".next") O_RDWR_CREATE_EXCL in
  let* r :=
    match r with
    | Ok next => ret (Ok next)
    | Err _ =>
        (* Shouldn't happen, but maybe there is a stale .next file.
           Remove and try again. *)
        os_Remove (prefix +:+ ".next") ;;
        os_OpenFile (prefix +:+ ".next") O_RDWR_CREATE_EXCL
    end in
  match r with
  | Err err => ret (Err (Errorf "creating cached file: %v" err))
  | Ok next =>
  let* '(cacheValid, metaLoad, err) := Loader_Load (loader c) path next (mLoad meta) in
  match err with
  | Some err => File_Close next ;; ret (Err err)
  | None =>
  let* now := time_Now in
  let meta := {| mPath := mPath meta; mCreateTime := mCreateTime meta;
                 mRefreshTime := now; mLoad := mLoad meta |} in
  let* installed :=
    if cacheValid then
      File_Close next ;;
      os_Remove (prefix +:+ ".next") ;;
      ret (Ok (meta, 0))
    else
      let meta := {| mPath := mPath meta; mCreateTime := mRefreshTime meta;
                     mRefreshTime := mRefreshTime meta; mLoad := mLoad meta |} in
      let* st := File_Stat next in
      match st with
      | Err err => ret (Err (Errorf "writing cached file: %v" err))
      | Ok fi =>
          let nextSize := fiSize fi in
          let* err := File_Close next in
          match err with
          | Some err => ret (Err (Errorf "writing cached file: %v" err))
          | None =>
              let* err := os_Rename (prefix +:+ ".next") (prefix +:+ ".data") in
              match err with
              | Some err =>
                  (* Shouldn't happen, but we did get the file. Use it. *)
                  ret (Err (Errorf "installing cached file: %v" err))
              | None => ret (Ok (meta, nextSize))
              end
          end
      end in
  match installed with
  | Err err => ret (Err err)
  | Ok (meta, nextSize) =>
  let meta := {| mPath := path; mCreateTime := mCreateTime meta;
                 mRefreshTime := mRefreshTime meta; mLoad := metaLoad |} in
  match json_Marshal meta with
  | Err err => ret (Err (Errorf "preparing meta file: %v" err))
  | Ok js =>
  (* Use WriteFile instead of metaFile.Write in order to force
     truncation of the meta file; its error is dropped. *)
  ioutil_WriteFile (prefix +:+ ".meta") js ;;
  (* We'd prefer to return the file named .data, not .next. Try. *)
  let* r := os_Open (prefix +:+ ".data") in
  match r with
  | Err err => ret (Err err)
  | Ok data =>
  File_Close metaFile ;;
  (if 0 <? nextSize then checkDataLimit c nextSize else ret tt) ;;
  ret (Ok data)
  end end end end end end end.

(** The body of Open once [locate] has given the cleaned path and the
    prefix of the entry's files. *)
Definition OpenAt (c : Cache S) (path prefix : string) : M S (result File) :=
  (* Fast path: if not expired and data file exists, done. *)
  let* st := os_Stat (prefix +:+ ".meta") in
  let d := expiration c in
  let* fast :=
    match st with
    | Ok fi =>
        let* ok := unexpired d fi in
        if ok then
          let* r := os_Open (prefix +:+ ".data") in
          match r with
          | Ok data => ret (Some data)
          | Err _ => ret None
          end
        else ret None
    | Err _ => ret None
    end in
  match fast with
  | Some data => ret (Ok data)
  | None =>
  (* Otherwise lock .meta file, creating it if necessary. *)
  let* r := metaLock c prefix in
  let* r :=
    match r with
    | Ok metaFile => ret (Ok metaFile)
    | Err _ =>
        let* cr := os_OpenFile (prefix +:+ ".meta") O_RDWR_CREATE_EXCL in
        match cr with Ok f => File_Close f | Err _ => ret None end ;;
        let* r := metaLock c prefix in
        match r, cr with
        | Ok metaFile, _ => ret (Ok metaFile)
        | Err _, Err errCreate => ret (Err (Errorf "creating metadata file: %v" errCreate))
        | Err err, Ok _ => ret (Err err)
        end
    end in
  match r with
  | Err err => ret (Err err)
  | Ok metaFile =>
  defer (File_Close metaFile) (
  (* Double-check expiration.
     We hold the meta lock, so nothing should change underfoot. *)
  let* st := File_Stat metaFile in
  match st with
  | Err err =>
      File_Close metaFile ;;
      ret (Err (Errorf "stat'ing metadata file: %v" err))
  | Ok fi =>
  let* rdata := os_Open (prefix +:+ ".data") in
  let* ok := unexpired d fi in
  match rdata with
  | Ok data =>
      if ok then ret (Ok data)
      else
        File_Close data ;;
        defer (File_Close metaFile) (refresh c path prefix metaFile None)
  | Err errData =>
      defer (File_Close metaFile) (refresh c path prefix metaFile (Some errData))
  end end)
  end end.

(** Open opens the file with the given path.  The caller is responsible
    for closing the returned file when finished with it. *)
Definition Open (c : Cache S) (path : string) : M S (result File) :=
  let* '(path, prefix) := locate c path in
  OpenAt c path prefix.

Definition ReadFile (c : Cache S) (path : string) : M S (result contents) :=
  let* r := Open c path in
  match r with
  | Err err => ret (Err err)
  | Ok f => defer (File_Close f) (ioutil_ReadAll f)
  end.

Definition DeleteAt (c : Cache S) (path prefix : string) : M S (option error) :=
  let* r := metaLock c prefix in
  match r with
  | Err err => if os_IsNotExist err then ret None else ret (Some err)
  | Ok metaFile =>
      os_Remove (prefix +:+ ".data") ;;
      os_Remove (prefix +:+ ".next") ;;
      os_Remove (prefix +:+ ".used") ;;
      let* err := os_Remove (prefix +:+ ".meta") in
      File_Close metaFile ;;
      match err with
      | Some err => if negb (os_IsNotExist err) then ret (Some err) else ret None
      | None => ret None
      end
  end.

(** Delete deletes the cache entry for the file with the given path. *)
Definition Delete (c : Cache S) (path : string) : M S (option error) :=
  let* '(path, prefix) := locate c path in
  DeleteAt c path prefix.

Definition ExpireAt (c : Cache S) (path prefix : string) : M S (option error) :=
  let t := time_Unix 0 0 in
  let* err := os_Chtimes (prefix +:+ ".meta") t t in
  match err with
  | Some err => if negb (os_IsNotExist err) then ret (Some err) else ret None
  | None => ret None
  end.

(** Expire marks the cache entry for the file with the given path as
    expired. *)
Definition Expire (c : Cache S) (path : string) : M S (option error) :=
  let* '(path, prefix) := locate c path in
  ExpireAt c path prefix.

End Diskcache.

(** ** The test loader of the package (diskcache_test.go) *)

(** [loaderFunc] turns a function into a Loader. *)
Definition loaderFunc {S : Type}
    (f : string -> option string -> S -> LoadResult * S) : Loader S :=
  mkLoader f.

(** [loadHello]: the token counts the loads; the n-th load writes
    ["hello, <path> #<n>\n"]. *)
Definition loadHello (path : string) (meta : option string) (s : unit) : LoadResult * unit :=
  let n := default 0 (strconv_Atoi (default "" meta)) in
  let n := n + 1 in
  ({| lrWritten := "hello, " +:+ path +:+ " #" +:+ fmt_Sprint n +:+ String "010" "";
      lrCacheValid := false;
      lrNewMeta := Some (fmt_Sprint n);
      lrErr := None |}, s).

(** ** Notions used to state the properties *)
Section Notions.
Context {S : Type}.
Implicit Types (w : World S) (c : Cache S).

(** the two results of [locate], which do not depend on the world *)
Definition cleaned (path : string) : string := pathpkg.Clean ("/" +:+ path).

Definition prefix_of c (path : string) : string :=
  let h := sha1.hex (sha1.Sum (cleaned path)) in
  filepath_Join [dir c; substring 0 3 h; substring 3 (String.length h - 3) h].

(** [d == 0 || now.Before(mtime.Add(d))] *)
Definition fresh_at (d now mtime : Z) : bool := (d =? 0) || (now <? mtime + d).

(** what Open makes of the bytes of [.meta] *)
Definition parse_meta (js : contents) : result metaDisk :=
  if 0 <? contents_len js then json_Unmarshal js else Ok metaDisk_zero.

(** Open answers from the cached copy: [.data] is there and [.meta]
    (taken as made this instant when it is missing) has not expired. *)
Definition served c (prefix : string) w : bool :=
  match wFS w !! (prefix +:+ ".data") with
  | Some _ =>
      fresh_at (expiration c) (wNow w)
        (match wFS w !! (prefix +:+ ".meta") with
         | Some ndm => iModTime ndm
         | None => wNow w
         end)
  | None => false
  end.

(** the metadata record stored for an entry *)
Definition stored_meta (prefix : string) w : result metaDisk :=
  match wFS w !! (prefix +:+ ".meta") with
  | Some ndm => parse_meta (iData ndm)
  | None => Ok metaDisk_zero
  end.

(** the token Open hands to the loader *)
Definition prior_token (prefix : string) w (m : metaDisk) : option string :=
  match wFS w !! (prefix +:+ ".data") with
  | Some _ => mLoad m
  | None => None
  end.

(** [.meta] once Open holds its lock: as found, or empty and new *)
Definition meta_after (prefix : string) w : inode :=
  default (mkInode (Raw "") (wNow w)) (wFS w !! (prefix +:+ ".meta")).

(** what an operation on one entry leaves alone: the clock, the
    directories, every file outside the entry's [.meta], [.data] and
    [.next], and the locks held *)
Definition frame (prefix : string) w w' : Prop :=
  wNow w' = wNow w ∧ wDirs w' = wDirs w ∧
  (∀ n, n ≠ prefix +:+ ".meta" → n ≠ prefix +:+ ".data" → n ≠ prefix +:+ ".next" →
        wFS w' !! n = wFS w !! n) ∧
  (∀ n, locked w' n = locked w n).

(** the handles an operation leaves open are those that were open
    before and, at most, the one it returns *)
Definition only_opened w w' (r : result File) : Prop :=
  ∀ f o, open_file w' f = Some o → r = Ok f ∨ open_file w f = Some o.

(** the world once [locate] has made the entry's directory *)
Definition located c (path : string) w : World S := snd (locate c path w).

(** whether a name is that of a [.data] file *)
Definition is_data_name (n : string) : bool :=
  let k := String.length n in
  (5 <=? k)%nat && String.eqb (substring (k - 5) 5 n) ".data".

(** the sum of the sizes of all [.data] files *)
Definition total_data_bytes w : Z :=
  foldr (fun '(n, nd) acc => if is_data_name n then contents_len (iData nd) + acc else acc)
        0 (map_to_list (wFS w)).

End Notions.

(** ** Loaders and worlds for the concrete runs *)

(** a loader whose transfer breaks off after a few bytes *)
Definition loadBroken (path : string) (meta : option string) (s : unit) : LoadResult * unit :=
  ({| lrWritten := "hel"; lrCacheValid := false; lrNewMeta := None;
      lrErr := Some (ErrRemote "unexpected EOF") |}, s).

(** a loader that reports the cached copy valid whatever it is given *)
Definition loadNotModified (path : string) (meta : option string) (s : unit) : LoadResult * unit :=
  ({| lrWritten := ""; lrCacheValid := true; lrNewMeta := Some "etag";
      lrErr := None |}, s).

(** an empty disk at some instant *)
Definition disk0 : World unit :=
  {| wFS := ∅; wDirs := ∅; wOpen := []; wNow := 1000; wRemote := tt; wCalls := [] |}.

(** the cache [New("/tmp/cache", loader)] returns *)
Definition cache0 (l : Loader unit) : Cache unit :=
  {| dir := "/tmp/cache"; loader := l; atomicExpiration := 0; atomicMaxData := 0 |}.

(** the prefix of the files of ["file"] in [cache0] *)
Definition file_prefix : string := "/tmp/cache/0a6/3e1f569becd95cebe053cc9f7611769d58f5b".

(** ** Package strings *)

(** [strings.Index(s, substr)]; [None] is the -1 of the library *)
Definition strings_Index (s substr : string) : option nat := index 0 substr s.

Definition strings_Contains (s substr : string) : bool :=
  match strings_Index s substr with
  | Some _ => true
  | None => false
  end.

(** ** Package cloud (http.go): the cache as an http.FileSystem *)

(** the [http.File] values [fileSystem.Open] returns: a file of the cache,
    or the empty directory *)
Inductive httpFile : Type :=
| cachedFile (f : File)
| emptyDir.

Record fileSystem (S : Type) : Type := mkFileSystem {
  fs_c : Cache S;
  fs_root : string;
}.
Arguments fs_c {S} _.
Arguments fs_root {S} _.
Arguments mkFileSystem {S} _ _.

(** Dir returns an http.FileSystem corresponding to the cached file
    subtree rooted at dir. *)
Definition Dir {S : Type} (cache : Cache S) (dir : string) : fileSystem S :=
  mkFileSystem cache dir.

Definition fileSystem_Open {S : Type} (fs : fileSystem S) (path : string)
    : M S (result httpFile) :=
  if strings_Contains path "/cgi-bin/" || strings_Contains path "/." then
    ret (Err (ENOENT path))
  else
    let* r := Open (fs_c fs) (fs_root fs +:+ "/" +:+ path) in
    match r with
    | Err err =>
        (* File doesn't exist, but might be a directory.
           If index.html exists, return an empty directory. *)
        let* r1 := Open (fs_c fs) (fs_root fs +:+ "/" +:+ path +:+ "/index.html") in
        match r1 with
        | Ok f => File_Close f ;; ret (Ok emptyDir)
        | Err _ => ret (Err err)
        end
    | Ok f => ret (Ok (cachedFile f))
    end.

(** LoadX509KeyPair is crypto/tls's LoadX509KeyPair, reading the key pair
    from the cache; [X509KeyPair] stands for [tls.X509KeyPair]. *)
Definition LoadX509KeyPair {S Cert : Type}
    (X509KeyPair : contents -> contents -> result Cert)
    (cache : Cache S) (certFile keyFile : string) : M S (result Cert) :=
  let* r := ReadFile cache certFile in
  match r with
  | Err err => ret (Err err)
  | Ok certPEMBlock =>
      let* r := ReadFile cache keyFile in
      match r with
      | Err err => ret (Err err)
      | Ok keyPEMBlock => ret (X509KeyPair certPEMBlock keyPEMBlock)
      end
  end.

(** ** Package gcs: a Loader over Google Cloud Storage *)

(** what [Load] puts in its GET request *)
Record Request : Type := mkRequest {
  reqURL : string;
  reqIfNoneMatch : option string;
}.

(** what [Load] looks at in the response; reading the body may break off
    with an error after some bytes *)
Record Response : Type := mkResponse {
  StatusCode : Z;
  Status : string;
  Etag : string;
  Body : string;
  BodyErr : option error;
}.

(** the loader: [client] stands for the [Do] method of the http.Client, against a remote
    side in state [S] *)
Record gcs_loader (S : Type) : Type := mk_gcs_loader {
  client : Request -> S -> result Response * S;
  root : string;
}.
Arguments client {S} _ _ _.
Arguments root {S} _.
Arguments mk_gcs_loader {S} _ _.

(** [loader.Load].  The request is taken to be well formed: Load drops
    the error of http.NewRequest and goes on with the request it was given
    back, so that for a URL that does not parse there is no request to
    send; the paths meant here are those whose URL parses.  What Load
    prints is left out. *)
Definition gcs_Load {S : Type} (l : gcs_loader S) (path : string) (meta : option string)
    (s : S) : LoadResult * S :=
  (* path = pathpkg.Join("/", l.root, path)[1:] *)
  let path := substring 1 (String.length (pathpkg.Clean ("/" +:+ root l +:+ "/" +:+ path)) - 1)
                (pathpkg.Clean ("/" +:+ root l +:+ "/" +:+ path)) in
  match strings_Index path "/" with
  | None => (mkLoadResult "" false None (Some (ErrRemote "path too short")), s)
  | Some _ =>
      let url := "https://storage.googleapis.com/" +:+ path in
      let req := {| reqURL := url;
                    reqIfNoneMatch :=
                      match meta with
                      | Some m => if (0 <? String.length m)%nat then Some m else None
                      | None => None
                      end |} in
      match client l req s with
      | (Err err, s') => (mkLoadResult "" false None (Some err), s')
      | (Ok resp, s') =>
          if StatusCode resp =? 304 then (mkLoadResult "" true meta None, s')
          else if negb (StatusCode resp =? 200) then
            if StatusCode resp =? 404 then
              (mkLoadResult "" false None (Some (ENOENT path)), s')
            else
              (mkLoadResult "" false None (Some (Errorf path (ErrRemote (Status resp)))), s')
          else
            (* _, err = io.Copy(target, resp.Body) *)
            match BodyErr resp with
            | Some err => (mkLoadResult (Body resp) false None (Some err), s')
            | None => (mkLoadResult (Body resp) false (Some (Etag resp)) None, s')
            end
      end
  end.

Definition NewLoaderWithClient {S : Type} (client : Request -> S -> result Response * S)
    (root : string) : Loader S :=
  mkLoader (gcs_Load (mk_gcs_loader client root)).

(** a remote side for the concrete runs: one object, gs://bucket/hello,
    with entity tag "v1"; the state is the list of the requests made *)
Definition one_object (req : Request) (log : list Request) : result Response * list Request :=
  (if String.eqb (reqURL req) "https://storage.googleapis.com/bucket/hello" then
     match reqIfNoneMatch req with
     | Some "v1" => Ok (mkResponse 304 "304 Not Modified" "v1" "" None)
     | _ => Ok (mkResponse 200 "200 OK" "v1" "hello, world" None)
     end
   else Ok (mkResponse 404 "404 Not Found" "" "" None),
   (log ++ [req])%list).

(** a loader that has the index page of one directory and nothing else *)
Definition loadIndex (path : string) (meta : option string) (s : unit) : LoadResult * unit :=
  if String.eqb path "/static/docs/index.html" then loadHello path meta s
  else ({| lrWritten := ""; lrCacheValid := false; lrNewMeta := None;
           lrErr := Some (ENOENT path) |}, s).

(** an empty disk in front of the remote side [one_object], and a cache
    over it whose entries expire after a nanosecond *)
Definition disk_gcs : World (list Request) :=
  {| wFS := ∅; wDirs := ∅; wOpen := []; wNow := 1000; wRemote := []; wCalls := [] |}.

Definition cache_gcs : Cache (list Request) :=
  {| dir := "/tmp/cache"; loader := NewLoaderWithClient one_object "";
     atomicExpiration := 1; atomicMaxData := 0 |}.

(** a path element with no slash and no dot in it *)
Fixpoint plain_element (s : string) : bool :=
  match s with
  | EmptyString => true
  | String a s' => negb (Ascii.eqb a "/") && negb (Ascii.eqb a ".") && plain_element s'
  end.


(** * Properties *)

(** ** Names, lists and the primitive operations *)

Lemma suffix_ne (prefix s1 s2 : string) : s1 ≠ s2 → prefix +:+ s1 ≠ prefix +:+ s2.
Proof. intros Hne Heq. apply Hne. eapply String.app_inj. exact Heq. Qed.

Ltac names_ne := first [ apply suffix_ne; discriminate | congruence ].

Section ListFacts.
Context {A : Type}.
Implicit Types (l k : list A).
Local Close Scope string_scope.

Lemma lookup_app_len l k : (l ++ k) !! List.length l = k !! 0%nat.
Proof. rewrite lookup_app_r by lia. by rewrite Nat.sub_diag. Qed.

Lemma lookup_app_plus l k j : (l ++ k) !! (List.length l + j)%nat = k !! j.
Proof. rewrite lookup_app_r by lia. f_equal. lia. Qed.

Lemma insert_app_len l k (a : A) :
  <[List.length l := a]> (l ++ k) = l ++ <[0%nat := a]> k.
Proof. rewrite insert_app_r_alt by lia. by rewrite Nat.sub_diag. Qed.

Lemma insert_app_plus l k j (a : A) :
  <[(List.length l + j)%nat := a]> (l ++ k) = l ++ <[j := a]> k.
Proof. apply insert_app_r. Qed.

Lemma if_same {B} (b : bool) (x : B) : (if b then x else x) = x.
Proof. by destruct b. Qed.
End ListFacts.

Section Primitives.
Context {S : Type}.
Implicit Types (w : World S) (c : Cache S).

Lemma unexpired_eq d fi w :
  unexpired d fi w = (fresh_at d (wNow w) (fiModTime fi), w).
Proof. unfold unexpired, fresh_at. destruct (d =? 0); reflexivity. Qed.

Lemma parse_meta_eq js :
  (if 0 <? contents_len js then json_Unmarshal js else Ok metaDisk_zero) = parse_meta js.
Proof. reflexivity. Qed.

Lemma parse_empty : parse_meta (Raw "") = Ok metaDisk_zero.
Proof. reflexivity. Qed.

Lemma os_Stat_Some n nd w : wFS w !! n = Some nd → os_Stat n w = (Ok (info nd), w).
Proof. intros H. unfold os_Stat. by rewrite H. Qed.

Lemma os_Stat_None n w : wFS w !! n = None → os_Stat n w = (Err (ENOENT n), w).
Proof. intros H. unfold os_Stat. by rewrite H. Qed.

Lemma os_Open_Some n nd w : wFS w !! n = Some nd →
  os_Open n w =
    (Ok (length (wOpen w)), with_open (wOpen w ++ [mkOpenFile n false false]) w).
Proof. intros H. unfold os_Open, os_OpenFile. by rewrite H. Qed.

Lemma os_Open_None n w : wFS w !! n = None → os_Open n w = (Err (ENOENT n), w).
Proof. intros H. unfold os_Open, os_OpenFile. by rewrite H. Qed.

Lemma os_OpenFile_RDWR_Some n nd w : wFS w !! n = Some nd →
  os_OpenFile n O_RDWR w =
    (Ok (length (wOpen w)), with_open (wOpen w ++ [mkOpenFile n false false]) w).
Proof. intros H. unfold os_OpenFile. by rewrite H. Qed.

Lemma os_OpenFile_RDWR_None n w : wFS w !! n = None →
  os_OpenFile n O_RDWR w = (Err (ENOENT n), w).
Proof. intros H. unfold os_OpenFile. by rewrite H. Qed.

Lemma os_OpenFile_EXCL_Some n nd w : wFS w !! n = Some nd →
  os_OpenFile n O_RDWR_CREATE_EXCL w = (Err (EEXIST n), w).
Proof. intros H. unfold os_OpenFile. by rewrite H. Qed.

Lemma os_OpenFile_EXCL_None n w : wFS w !! n = None →
  os_OpenFile n O_RDWR_CREATE_EXCL w =
    (Ok (length (wOpen w)),
     with_open (wOpen w ++ [mkOpenFile n false false])
       (with_fs (<[n := mkInode (Raw "") (wNow w)]> (wFS w)) w)).
Proof. intros H. unfold os_OpenFile. by rewrite H. Qed.

Lemma File_Close_open f n lk w : wOpen w !! f = Some (mkOpenFile n false lk) →
  File_Close f w = (None, with_open (<[f := mkOpenFile n true lk]> (wOpen w)) w).
Proof. intros H. unfold File_Close, open_file. by rewrite H. Qed.

Lemma File_Close_closed f n lk w : wOpen w !! f = Some (mkOpenFile n true lk) →
  File_Close f w = (Some ErrClosed, w).
Proof. intros H. unfold File_Close, open_file. by rewrite H. Qed.

Lemma syscall_Flock_open f n lk w : wOpen w !! f = Some (mkOpenFile n false lk) →
  syscall_Flock f w = (None, with_open (<[f := mkOpenFile n false true]> (wOpen w)) w).
Proof. intros H. unfold syscall_Flock, open_file. by rewrite H. Qed.

Lemma File_Stat_open f n lk nd w :
  wOpen w !! f = Some (mkOpenFile n false lk) → wFS w !! n = Some nd →
  File_Stat f w = (Ok (info nd), w).
Proof.
  intros H1 H2. unfold File_Stat, file_of, open_file. rewrite H1. simpl. by rewrite H2.
Qed.

Lemma ioutil_ReadAll_open f n lk nd w :
  wOpen w !! f = Some (mkOpenFile n false lk) → wFS w !! n = Some nd →
  ioutil_ReadAll f w = (Ok (iData nd), w).
Proof.
  intros H1 H2. unfold ioutil_ReadAll, file_of, open_file. rewrite H1. simpl. by rewrite H2.
Qed.

Lemma os_Remove_Some n nd w : wFS w !! n = Some nd →
  os_Remove n w = (None, with_fs (delete n (wFS w)) w).
Proof. intros H. unfold os_Remove. by rewrite H. Qed.

Lemma os_Remove_None n w : wFS w !! n = None → os_Remove n w = (Some (ENOENT n), w).
Proof. intros H. unfold os_Remove. by rewrite H. Qed.

Lemma os_Rename_Some n n' nd w : wFS w !! n = Some nd →
  os_Rename n n' w = (None, with_fs (<[n' := nd]> (delete n (wFS w))) w).
Proof. intros H. unfold os_Rename. by rewrite H. Qed.

Lemma os_Chtimes_Some n nd t t' w : wFS w !! n = Some nd →
  os_Chtimes n t t' w = (None, with_fs (<[n := mkInode (iData nd) t']> (wFS w)) w).
Proof. intros H. unfold os_Chtimes. by rewrite H. Qed.

Lemma os_Chtimes_None n t t' w : wFS w !! n = None →
  os_Chtimes n t t' w = (Some (ENOENT n), w).
Proof. intros H. unfold os_Chtimes. by rewrite H. Qed.

Lemma ioutil_WriteFile_eq n data w :
  ioutil_WriteFile n data w =
    (None, with_fs (<[n := mkInode data (wNow w)]> (wFS w)) w).
Proof. reflexivity. Qed.

Lemma time_Now_eq w : time_Now w = (wNow w, w).
Proof. reflexivity. Qed.

(** a loader writing to a file that was just created *)
Lemma Loader_Load_fresh (l : Loader S) path f meta n lk r s w :
  wOpen w !! f = Some (mkOpenFile n false lk) →
  wFS w !! n = Some (mkInode (Raw "") (wNow w)) →
  Load l path meta (wRemote w) = (r, s) →
  Loader_Load l path f meta w =
    ((lrCacheValid r, lrNewMeta r, lrErr r),
     with_calls (wCalls w ++ [mkLoadCall path meta r])
       (with_fs (<[n := mkInode (Raw (lrWritten r)) (wNow w)]> (wFS w)) (with_remote s w))).
Proof.
  intros H1 H2 H3. unfold Loader_Load. rewrite H3.
  destruct (String.eqb_spec (lrWritten r) "") as [Hw|Hw].
  - rewrite Hw. rewrite insert_id by done. by destruct w.
  - unfold File_Write, file_of, open_file. cbn [wOpen with_remote wFS].
    rewrite H1. cbn [ofClosed ofName]. rewrite H2. reflexivity.
Qed.

End Primitives.

(** Symbolic execution of an operation of the cache, one primitive at a
    time: the world is brought to a record of its components, and each
    primitive is replaced by its result under what is known of the files. *)
Ltac wsimpl :=
  unfold with_fs, with_open, with_now, with_remote, with_calls, with_dirs;
  cbn [wFS wOpen wNow wRemote wCalls wDirs info fiModTime fiSize iData iModTime
       lrErr lrCacheValid lrNewMeta lrWritten mPath mCreateTime mRefreshTime mLoad fst snd];
  repeat first
    [ rewrite <- app_assoc
    | rewrite length_app
    | rewrite insert_app_plus
    | rewrite insert_app_len ];
  cbn [app length insert list_insert Nat.add].

Ltac lk :=
  wsimpl;
  repeat first [ rewrite lookup_insert_eq | rewrite lookup_insert_ne by names_ne
               | rewrite lookup_delete_eq | rewrite lookup_delete_ne by names_ne
               | rewrite lookup_app_plus | rewrite lookup_app_len ];
  cbn [lookup list_lookup];
  first [ eassumption | reflexivity ].

Ltac use_hyp :=
  match goal with
  | H : parse_meta ?js = _ |- context [parse_meta ?js] => rewrite H
  | H : fresh_at ?d ?n ?m = _ |- context [fresh_at ?d ?n ?m] => rewrite H
  end.

Ltac exec1 :=
  cbv beta iota zeta;
  first
  [ rewrite unexpired_eq
  | rewrite time_Now_eq
  | rewrite ioutil_WriteFile_eq
  | rewrite parse_meta_eq
  | rewrite if_same
  | use_hyp
  | erewrite os_Stat_Some by lk
  | rewrite os_Stat_None by lk
  | erewrite os_Open_Some by lk
  | rewrite os_Open_None by lk
  | erewrite os_OpenFile_RDWR_Some by lk
  | rewrite os_OpenFile_RDWR_None by lk
  | erewrite os_OpenFile_EXCL_Some by lk
  | rewrite os_OpenFile_EXCL_None by lk
  | erewrite File_Close_open by lk
  | erewrite File_Close_closed by lk
  | erewrite syscall_Flock_open by lk
  | erewrite File_Stat_open by lk
  | erewrite ioutil_ReadAll_open by lk
  | erewrite os_Remove_Some by lk
  | rewrite os_Remove_None by lk
  | erewrite os_Rename_Some by lk
  | erewrite os_Chtimes_Some by lk
  | rewrite os_Chtimes_None by lk
  | erewrite Loader_Load_fresh by lk
  | match goal with
    | |- context [fresh_at ?d ?n ?m] => destruct (fresh_at d n m) eqn:?
    end ];
  wsimpl.

Ltac exec :=
  unfold OpenAt, refresh, DeleteAt, ExpireAt, metaLock, checkDataLimit, defer, bind, ret,
    json_Marshal;
  repeat exec1.

Ltac fs_frame :=
  intros; wsimpl;
  repeat first [ rewrite lookup_insert_ne by congruence
               | rewrite lookup_delete_ne by congruence ];
  reflexivity.

Ltac lock_frame :=
  intros; unfold locked; wsimpl; rewrite ?existsb_app;
  cbn [existsb negb andb orb ofClosed ofLock]; rewrite ?orb_false_r; reflexivity.

Ltac handles_tac :=
  let f := fresh "f" in let o := fresh "o" in let H := fresh "H" in
  let E := fresh "E" in let j := fresh "j" in let Hj := fresh "Hj" in
  unfold only_opened; intros f o; unfold open_file; wsimpl; intros H; unfold File in *;
  try (right; exact H);
  match type of H with
  | context [ (?l ++ ?k)%list !! f ] =>
      destruct (decide (f < length l)%nat) as [E|E];
      [ rewrite (lookup_app_l l k f E) in H; right; exact H
      | rewrite (lookup_app_r l k f) in H by lia;
        remember (f - length l)%nat as j eqn:Hj;
        repeat first
          [ discriminate H
          | destruct j as [|j]; cbn in H;
            [ first [ discriminate H | (left; f_equal; lia) ] |] ] ]
  end.

Ltac facts := repeat split; first [ lk | fs_frame | lock_frame | handles_tac ].

Ltac cases prefix w :=
  let Hm := fresh "Hm" in let Hd := fresh "Hd" in let Hn := fresh "Hn" in
  destruct (wFS w !! (prefix +:+ ".meta")) as [?ndm|] eqn:Hm;
  destruct (wFS w !! (prefix +:+ ".data")) as [?ndd|] eqn:Hd;
  destruct (wFS w !! (prefix +:+ ".next")) as [?ndn|] eqn:Hn.

(** ** What Open does, case by case *)
Section OpenCases.
Context {S : Type}.
Implicit Types (w : World S) (c : Cache S).

(** A cached copy that has not expired is returned as it is: the loader
    is not called and no file changes, but for an empty [.meta] made when
    there was none. *)
Lemma OpenAt_served c path prefix w :
  served c prefix w = true →
  ∃ f w', OpenAt c path prefix w = (Ok f, w') ∧
    wOpen w' !! f = Some (mkOpenFile (prefix +:+ ".data") false false) ∧
    wCalls w' = wCalls w ∧ wRemote w' = wRemote w ∧
    wFS w' !! (prefix +:+ ".meta") = Some (meta_after prefix w) ∧
    wFS w' !! (prefix +:+ ".data") = wFS w !! (prefix +:+ ".data") ∧
    wFS w' !! (prefix +:+ ".next") = wFS w !! (prefix +:+ ".next") ∧
    frame prefix w w' ∧ only_opened w w' (Ok f).
Proof.
  unfold served, meta_after, frame. pose proof parse_empty.
  cases prefix w; intros Hs; try discriminate; cbn [default].
  all: eexists _, _; split; [exec; reflexivity|].
  all: facts.
Qed.

(** Metadata that does not parse stops Open before the loader is
    called; nothing on disk changes. *)
Lemma OpenAt_corrupt c path prefix w e :
  served c prefix w = false →
  stored_meta prefix w = Err e →
  ∃ w', OpenAt c path prefix w = (Err (Errorf "reading metadata file: %v" e), w') ∧
    wCalls w' = wCalls w ∧ wRemote w' = wRemote w ∧ wFS w' = wFS w ∧
    frame prefix w w' ∧
    only_opened w w' (Err (Errorf "reading metadata file: %v" e)).
Proof.
  unfold served, stored_meta, frame.
  cases prefix w; intros Hs Hp; try discriminate.
  all: eexists; split; [exec; reflexivity|].
  all: facts.
Qed.

(** The loader fails: its error is returned, [.meta] and [.data] are as
    they were ([.meta] empty and new if there was none), the lock is
    released, and [.next] stays behind with what the loader wrote. *)
Lemma OpenAt_load_error c path prefix w m0 res s e :
  served c prefix w = false →
  stored_meta prefix w = Ok m0 →
  Load (loader c) path (prior_token prefix w m0) (wRemote w) = (res, s) →
  lrErr res = Some e →
  ∃ w', OpenAt c path prefix w = (Err e, w') ∧
    wCalls w' = (wCalls w ++ [mkLoadCall path (prior_token prefix w m0) res])%list ∧
    wRemote w' = s ∧
    wFS w' !! (prefix +:+ ".meta") = Some (meta_after prefix w) ∧
    wFS w' !! (prefix +:+ ".data") = wFS w !! (prefix +:+ ".data") ∧
    wFS w' !! (prefix +:+ ".next") = Some (mkInode (Raw (lrWritten res)) (wNow w)) ∧
    frame prefix w w' ∧ only_opened w w' (Err e).
Proof.
  unfold served, stored_meta, prior_token, meta_after, frame. pose proof parse_empty.
  destruct res as [written valid newMeta err]. cbn [lrErr lrWritten].
  cases prefix w; intros Hs Hp HL He; try discriminate; subst err; simplify_eq.
  all: cbn [default].
  all: eexists; split; [exec; reflexivity|].
  all: facts.
Qed.

(** The loader reports the cached copy valid: [.data] is not touched,
    [.next] is removed, and the record is written back with its creation
    time kept, the refresh time now, the loader's token and the path. *)
Lemma OpenAt_load_valid c path prefix w m0 res s :
  served c prefix w = false →
  stored_meta prefix w = Ok m0 →
  Load (loader c) path (prior_token prefix w m0) (wRemote w) = (res, s) →
  lrErr res = None → lrCacheValid res = true →
  ∃ r w', OpenAt c path prefix w = (r, w') ∧
    wCalls w' = (wCalls w ++ [mkLoadCall path (prior_token prefix w m0) res])%list ∧
    wRemote w' = s ∧
    wFS w' !! (prefix +:+ ".meta") =
      Some (mkInode (Json {| mPath := path; mCreateTime := mCreateTime m0;
                             mRefreshTime := wNow w; mLoad := lrNewMeta res |}) (wNow w)) ∧
    wFS w' !! (prefix +:+ ".data") = wFS w !! (prefix +:+ ".data") ∧
    wFS w' !! (prefix +:+ ".next") = None ∧
    frame prefix w w' ∧
    match wFS w !! (prefix +:+ ".data") with
    | Some _ => ∃ f, r = Ok f ∧
                     wOpen w' !! f = Some (mkOpenFile (prefix +:+ ".data") false false)
    | None => r = Err (ENOENT (prefix +:+ ".data"))
    end ∧
    only_opened w w' r.
Proof.
  unfold served, stored_meta, prior_token, frame. pose proof parse_empty.
  destruct res as [written valid newMeta err]. cbn [lrErr lrWritten lrCacheValid lrNewMeta].
  cases prefix w; intros Hs Hp HL He Hv; try discriminate; subst err valid; simplify_eq.
  all: eexists _, _; split; [exec; reflexivity|].
  all: repeat split;
  first [ lk | fs_frame | lock_frame | handles_tac | (eexists; split; [reflexivity | lk]) ].
Qed.

(** The loader fetched a new copy: what it wrote to [.next] becomes
    [.data], and the record written has creation and refresh time now. *)
Lemma OpenAt_load_new c path prefix w m0 res s :
  served c prefix w = false →
  stored_meta prefix w = Ok m0 →
  Load (loader c) path (prior_token prefix w m0) (wRemote w) = (res, s) →
  lrErr res = None → lrCacheValid res = false →
  ∃ f w', OpenAt c path prefix w = (Ok f, w') ∧
    wOpen w' !! f = Some (mkOpenFile (prefix +:+ ".data") false false) ∧
    wCalls w' = (wCalls w ++ [mkLoadCall path (prior_token prefix w m0) res])%list ∧
    wRemote w' = s ∧
    wFS w' !! (prefix +:+ ".meta") =
      Some (mkInode (Json {| mPath := path; mCreateTime := wNow w;
                             mRefreshTime := wNow w; mLoad := lrNewMeta res |}) (wNow w)) ∧
    wFS w' !! (prefix +:+ ".data") = Some (mkInode (Raw (lrWritten res)) (wNow w)) ∧
    wFS w' !! (prefix +:+ ".next") = None ∧
    frame prefix w w' ∧ only_opened w w' (Ok f).
Proof.
  unfold served, stored_meta, prior_token, frame. pose proof parse_empty.
  destruct res as [written valid newMeta err]. cbn [lrErr lrWritten lrCacheValid lrNewMeta].
  cases prefix w; intros Hs Hp HL He Hv; try discriminate; subst err valid; simplify_eq.
  all: eexists _, _; split; [exec; reflexivity|].
  all: facts.
Qed.

End OpenCases.

(** ** From [locate] to the entry *)
Section Located.
Context {S : Type}.
Implicit Types (w : World S) (c : Cache S).

Lemma locate_eq c p w :
  locate c p w = ((cleaned p, prefix_of c p), located c p w).
Proof.
  unfold located, locate, bind, ret, prefix_of, cleaned. cbv zeta.
  destruct (os_Mkdir _ w). reflexivity.
Qed.

Lemma located_same c p w :
  wFS (located c p w) = wFS w ∧ wOpen (located c p w) = wOpen w ∧
  wNow (located c p w) = wNow w ∧ wRemote (located c p w) = wRemote w ∧
  wCalls (located c p w) = wCalls w.
Proof.
  unfold located, locate, bind, ret, os_Mkdir. cbv zeta.
  repeat case_match; simplify_eq; done.
Qed.

Lemma Open_eq c p w :
  Open c p w = OpenAt c (cleaned p) (prefix_of c p) (located c p w).
Proof. unfold Open, bind. by rewrite locate_eq. Qed.

Lemma Delete_eq c p w :
  Delete c p w = DeleteAt c (cleaned p) (prefix_of c p) (located c p w).
Proof. unfold Delete, bind. by rewrite locate_eq. Qed.

Lemma Expire_eq c p w :
  Expire c p w = ExpireAt c (cleaned p) (prefix_of c p) (located c p w).
Proof. unfold Expire, bind. by rewrite locate_eq. Qed.

Lemma served_located c p prefix w : served c prefix (located c p w) = served c prefix w.
Proof.
  destruct (located_same c p w) as (Hfs & _ & Hnow & _). unfold served. by rewrite Hfs, Hnow.
Qed.

Lemma stored_meta_located c p prefix w :
  stored_meta prefix (located c p w) = stored_meta prefix w.
Proof. destruct (located_same c p w) as (Hfs & _). unfold stored_meta. by rewrite Hfs. Qed.

Lemma prior_token_located c p prefix w m :
  prior_token prefix (located c p w) m = prior_token prefix w m.
Proof. destruct (located_same c p w) as (Hfs & _). unfold prior_token. by rewrite Hfs. Qed.

Lemma locked_located c p w n : locked (located c p w) n = locked w n.
Proof. destruct (located_same c p w) as (_ & Ho & _). unfold locked. by rewrite Ho. Qed.

End Located.

(** ** The outcomes of Open *)

(** The five ways an Open can go: served from the cache, stopped by
    unreadable metadata, or the loader called and failing, revalidating or
    fetching.  Each branch comes with the facts of its case lemma. *)
Ltac open_cases c p w :=
  let Hfs := fresh "Hfs" in let Hop := fresh "Hop" in let Hnow := fresh "Hnow" in
  let Hrem := fresh "Hrem" in let Hcalls := fresh "Hcalls" in
  let Hs := fresh "Hs" in let Hp := fresh "Hp" in let HL := fresh "HL" in
  let He := fresh "He" in let Hv := fresh "Hv" in
  let m := fresh "m" in let res := fresh "res" in
  destruct (located_same c p w) as (Hfs & Hop & Hnow & Hrem & Hcalls);
  destruct (served c (prefix_of c p) (located c p w)) eqn:Hs;
  [ destruct (OpenAt_served c (cleaned p) _ _ Hs)
      as (?f & ?w1 & ?Heq & ?Hh & ?Hc & ?Hr & ?Hmeta & ?Hdata & ?Hnext & ?Hfr & ?Hho)
  | destruct (stored_meta (prefix_of c p) (located c p w)) as [m|?e0] eqn:Hp;
    [ destruct (Load (loader c) (cleaned p)
                  (prior_token (prefix_of c p) (located c p w) m)
                  (wRemote (located c p w))) as [res ?s] eqn:HL;
      destruct (lrErr res) as [?e|] eqn:He;
      [ destruct (OpenAt_load_error c (cleaned p) _ _ _ _ _ _ Hs Hp HL He)
          as (?w1 & ?Heq & ?Hc & ?Hr & ?Hmeta & ?Hdata & ?Hnext & ?Hfr & ?Hho)
      | destruct (lrCacheValid res) eqn:Hv;
        [ destruct (OpenAt_load_valid c (cleaned p) _ _ _ _ _ Hs Hp HL He Hv)
            as (?r1 & ?w1 & ?Heq & ?Hc & ?Hr & ?Hmeta & ?Hdata & ?Hnext & ?Hfr & ?Hres & ?Hho)
        | destruct (OpenAt_load_new c (cleaned p) _ _ _ _ _ Hs Hp HL He Hv)
            as (?f & ?w1 & ?Heq & ?Hh & ?Hc & ?Hr & ?Hmeta & ?Hdata & ?Hnext & ?Hfr & ?Hho) ] ]
    | destruct (OpenAt_corrupt c (cleaned p) _ _ _ Hs Hp)
        as (?w1 & ?Heq & ?Hc & ?Hr & ?Hsame & ?Hfr & ?Hho) ] ].

Lemma no_growth {A} (l : list A) x : l ≠ (l ++ [x])%list.
Proof.
  intros H. apply (f_equal length) in H. rewrite length_app in H. simpl in H. lia.
Qed.

Section Claims.
Context {S : Type}.
Implicit Types (w : World S) (c : Cache S).

(** An Open that succeeds leaves [.meta] and [.data] in place, returns
    an open handle on [.data], and has called the loader at most once. *)
Lemma Open_Ok_inv c p w f w' :
  Open c p w = (Ok f, w') →
  ∃ ndm ndd,
    wFS w' !! (prefix_of c p +:+ ".meta") = Some ndm ∧
    wFS w' !! (prefix_of c p +:+ ".data") = Some ndd ∧
    wOpen w' !! f = Some (mkOpenFile (prefix_of c p +:+ ".data") false false) ∧
    wNow w' = wNow w ∧
    (length (wCalls w') ≤ length (wCalls w) + 1)%nat.
Proof.
  intros HO. rewrite Open_eq in HO.
  open_cases c p w; rewrite Heq in HO; simplify_eq.
  - unfold served in Hs.
    destruct (wFS (located c p w) !! (prefix_of c p +:+ ".data")) as [ndd|] eqn:Hd;
      [|discriminate].
    destruct Hfr as (Hn & _). eexists _, ndd. rewrite Hc, Hcalls, Hn, Hnow.
    repeat split; eauto with lia.
  - destruct (wFS (located c p w) !! (prefix_of c p +:+ ".data")) as [ndd|] eqn:Hd;
      [|discriminate].
    destruct Hres as (f' & ? & Hh); simplify_eq.
    destruct Hfr as (Hn & _). eexists _, ndd. rewrite Hc, Hcalls, Hn, Hnow, length_app.
    repeat split; eauto.
  - destruct Hfr as (Hn & _). eexists _, _. rewrite Hc, Hcalls, Hn, Hnow, length_app.
    repeat split; eauto.
Qed.

(** ReadFile after an Open that returned a handle on a file that is there *)
Lemma ReadFile_of_Open c p w f w' n lk nd :
  Open c p w = (Ok f, w') →
  wOpen w' !! f = Some (mkOpenFile n false lk) →
  wFS w' !! n = Some nd →
  ReadFile c p w =
    (Ok (iData nd), with_open (<[f := mkOpenFile n true lk]> (wOpen w')) w').
Proof.
  intros HO Hh Hn. unfold ReadFile, defer, bind, ret. rewrite HO.
  cbv beta iota zeta. erewrite ioutil_ReadAll_open by eauto.
  cbv beta iota zeta. erewrite File_Close_open by eauto. reflexivity.
Qed.

(** C5: when the loader called during Open returns cache_valid == false
    and no error, the [.next] file it wrote has become [.data] (and is
    gone under its own name), the record in [.meta] has create and
    refresh time now and the loader's new token, and the handle Open
    returns reads exactly the bytes the loader wrote. *)
Theorem Open_installs_loaded_file c p w r w' call :
  Open c p w = (r, w') →
  wCalls w' = (wCalls w ++ [call])%list →
  lrCacheValid (lcResult call) = false →
  lrErr (lcResult call) = None →
  wFS w' !! (prefix_of c p +:+ ".next") = None ∧
  wFS w' !! (prefix_of c p +:+ ".data")
    = Some (mkInode (Raw (lrWritten (lcResult call))) (wNow w)) ∧
  wFS w' !! (prefix_of c p +:+ ".meta")
    = Some (mkInode (Json {| mPath := cleaned p; mCreateTime := wNow w;
                             mRefreshTime := wNow w;
                             mLoad := lrNewMeta (lcResult call) |}) (wNow w)) ∧
  ∃ f, r = Ok f ∧ ioutil_ReadAll f w' = (Ok (Raw (lrWritten (lcResult call))), w').
Proof.
  intros HO Hlog Hvalid Herr. rewrite Open_eq in HO.
  open_cases c p w; rewrite Heq in HO; simplify_eq; rewrite Hc, Hcalls in Hlog.
  all: try (exfalso; by eapply no_growth).
  all: apply app_inv_head in Hlog; simplify_eq; cbn [lcResult] in *; try congruence.
  rewrite Hnow in *.
  repeat split; try done.
  exists f. split; [done|]. erewrite ioutil_ReadAll_open; eauto.
  reflexivity.
Qed.

(** Every record Open writes holds the cleaned path: when the loader was
    called and returned no error, the record in [.meta] afterwards has the
    cleaned path as its path. *)
Lemma Open_records_cleaned_path c p w call :
  wCalls (snd (Open c p w)) = (wCalls w ++ [call])%list →
  lrErr (lcResult call) = None →
  ∃ m, stored_meta (prefix_of c p) (snd (Open c p w)) = Ok m ∧ mPath m = cleaned p.
Proof.
  intros Hlog Herr. rewrite Open_eq in *.
  open_cases c p w; rewrite Heq in *; cbn [snd] in *; rewrite Hc, Hcalls in Hlog.
  all: try (exfalso; by eapply no_growth).
  all: apply app_inv_head in Hlog; simplify_eq; cbn [lcResult] in *; try congruence.
  all: unfold stored_meta; rewrite Hmeta; eexists; split; reflexivity.
Qed.

(** C6: when the loader called during Open returns cache_valid == true
    and no error, for an entry whose stored record holds the cleaned path
    (as every record written by Open does): [.data] is left as it was,
    [.next] is removed, and the record written to [.meta] is the stored one
    with the refresh time set to now and the token set to the loader's;
    the creation time and the path are kept. *)
Theorem Open_revalidated c p w r w' call m0 :
  Open c p w = (r, w') →
  wCalls w' = (wCalls w ++ [call])%list →
  lrCacheValid (lcResult call) = true →
  lrErr (lcResult call) = None →
  stored_meta (prefix_of c p) w = Ok m0 →
  mPath m0 = cleaned p →
  wFS w' !! (prefix_of c p +:+ ".data") = wFS w !! (prefix_of c p +:+ ".data") ∧
  wFS w' !! (prefix_of c p +:+ ".next") = None ∧
  wFS w' !! (prefix_of c p +:+ ".meta")
    = Some (mkInode (Json {| mPath := mPath m0; mCreateTime := mCreateTime m0;
                             mRefreshTime := wNow w;
                             mLoad := lrNewMeta (lcResult call) |}) (wNow w)).
Proof.
  intros HO Hlog Hvalid Herr Hm0 Hpath. rewrite Open_eq in HO.
  open_cases c p w; rewrite Heq in HO; simplify_eq; rewrite Hc, Hcalls in Hlog.
  all: try (exfalso; by eapply no_growth).
  all: apply app_inv_head in Hlog; simplify_eq; cbn [lcResult] in *; try congruence.
  rewrite stored_meta_located in Hp. rewrite Hnow, Hfs in *.
  assert (m = m0) as -> by congruence.
  rewrite Hpath. repeat split; done.
Qed.

(** C8: when [.data] is missing, the loader is called with no token,
    whatever token the stored record holds. *)
Theorem Open_without_data_passes_no_token c p w m0 :
  wFS w !! (prefix_of c p +:+ ".data") = None →
  stored_meta (prefix_of c p) w = Ok m0 →
  ∃ res, wCalls (snd (Open c p w))
         = (wCalls w ++ [mkLoadCall (cleaned p) None res])%list.
Proof.
  intros Hd Hm. rewrite Open_eq.
  open_cases c p w; rewrite Heq; cbn [snd]; rewrite Hc, Hcalls.
  - unfold served in Hs. rewrite Hfs, Hd in Hs. discriminate.
  - unfold prior_token. rewrite Hfs, Hd. eauto.
  - unfold prior_token. rewrite Hfs, Hd. eauto.
  - unfold prior_token. rewrite Hfs, Hd. eauto.
  - rewrite stored_meta_located in Hp. congruence.
Qed.

(** C7: Open, read, close twice in succession, the second time within
    the expiration window (always so with no expiration), yields the same
    bytes and calls the loader at most once in all. *)
Theorem ReadFile_twice c p w b w1 dt :
  ReadFile c p w = (Ok b, w1) →
  (expiration c = 0 ∨
   ∃ ndm, wFS w1 !! (prefix_of c p +:+ ".meta") = Some ndm ∧
          wNow w1 + dt < iModTime ndm + expiration c) →
  ∃ w2, ReadFile c p (advance dt w1) = (Ok b, w2) ∧
        wCalls w2 = wCalls w1 ∧
        (length (wCalls w1) ≤ length (wCalls w) + 1)%nat.
Proof.
  intros HR Hwin.
  destruct (Open c p w) as [[f|e] wa] eqn:HO.
  2:{ unfold ReadFile, defer, bind, ret in HR. rewrite HO in HR. discriminate. }
  destruct (Open_Ok_inv _ _ _ _ _ HO) as (ndm & ndd & Hm & Hd & Hh & Hn & Hlen).
  rewrite (ReadFile_of_Open _ _ _ _ _ _ _ _ HO Hh Hd) in HR. simplify_eq.
  cbn [wFS with_open wNow wCalls] in *.
  set (w1 := advance dt (with_open _ wa)).
  assert (Hs : served c (prefix_of c p) (located c p w1) = true).
  { rewrite served_located. unfold served, w1, advance.
    cbn [wFS with_now with_open wNow]. rewrite Hd, Hm. unfold fresh_at.
    destruct Hwin as [Hz | (ndm' & Hm' & Hlt)].
    - rewrite Hz. reflexivity.
    - simplify_eq. apply orb_true_iff. right. apply Z.ltb_lt. lia. }
  destruct (located_same c p w1) as (Hfs1 & _ & _ & _ & Hcalls1).
  destruct (OpenAt_served c (cleaned p) _ _ Hs)
    as (f2 & w2 & Heq & Hh2 & Hc2 & _ & _ & Hdata2 & _).
  rewrite <- Open_eq in Heq.
  assert (Hd2 : wFS w2 !! (prefix_of c p +:+ ".data") = Some ndd).
  { rewrite Hdata2, Hfs1. unfold w1, advance. cbn [wFS with_now with_open]. done. }
  rewrite (ReadFile_of_Open _ _ _ _ _ _ _ _ Heq Hh2 Hd2).
  eexists. split; [reflexivity|]. cbn [wCalls with_open].
  rewrite Hc2, Hcalls1. unfold w1, advance. cbn [wCalls with_now with_open].
  split; [done | lia].
Qed.

(** C10: ReadFile returns what reading the handle of Open gives, and
    has closed that handle when it returns, whether the read succeeded or
    not; when Open fails, ReadFile returns its error and no bytes. *)
Theorem ReadFile_reads_and_closes c p w :
  match Open c p w with
  | (Err e, w1) => ReadFile c p w = (Err e, w1)
  | (Ok f, w1) =>
      ∃ w2, ReadFile c p w = (fst (ioutil_ReadAll f w1), w2) ∧
            open_file w2 f = None ∧ wFS w2 = wFS w1
  end.
Proof.
  unfold ReadFile, defer, bind, ret.
  destruct (Open c p w) as [[f|e] w1]; [|reflexivity].
  assert (Hrd : snd (ioutil_ReadAll f w1) = w1).
  { unfold ioutil_ReadAll. repeat case_match; reflexivity. }
  destruct (ioutil_ReadAll f w1) as [rd w1']. cbn [fst snd] in *. subst w1'.
  unfold File_Close.
  destruct (open_file w1 f) as [o|] eqn:Ho.
  - eexists. split; [reflexivity|]. split; [|reflexivity].
    unfold open_file in *. cbn [wOpen with_open].
    destruct (wOpen w1 !! f) as [o'|] eqn:Hl; [|discriminate].
    rewrite list_lookup_insert_eq by (by eapply lookup_lt_Some). reflexivity.
  - eexists. split; [reflexivity|]. split; [assumption | reflexivity].
Qed.

(** Open leaves [.used] as it finds it: it does not create the file and
    does not write to it. *)
Theorem Open_never_writes_used c p w :
  wFS (snd (Open c p w)) !! (prefix_of c p +:+ ".used")
  = wFS w !! (prefix_of c p +:+ ".used").
Proof.
  rewrite Open_eq.
  open_cases c p w; rewrite Heq; cbn [snd].
  all: destruct Hfr as (_ & _ & Hfr & _); rewrite Hfr by names_ne; by rewrite Hfs.
Qed.

End Claims.

Section Admin.
Context {S : Type}.
Implicit Types (w : World S) (c : Cache S).

(** the meta lock is held once [metaLock] has returned a handle *)
Lemma metaLock_locks c prefix w nd :
  wFS w !! (prefix +:+ ".meta") = Some nd →
  ∃ f w1, metaLock c prefix w = (Ok f, w1) ∧
          locked w1 (prefix +:+ ".meta") = true ∧ wFS w1 = wFS w.
Proof.
  intros Hm. eexists _, _. split; [exec; reflexivity|]. split; [|reflexivity].
  unfold locked. wsimpl. rewrite existsb_app.
  cbn [existsb negb andb orb ofClosed ofLock ofName].
  rewrite String.eqb_refl. apply orb_true_r.
Qed.

Lemma DeleteAt_spec c path prefix w :
  match wFS w !! (prefix +:+ ".meta") with
  | Some _ =>
      ∃ w', DeleteAt c path prefix w = (None, w') ∧
        wFS w' !! (prefix +:+ ".data") = None ∧
        wFS w' !! (prefix +:+ ".next") = None ∧
        wFS w' !! (prefix +:+ ".used") = None ∧
        wFS w' !! (prefix +:+ ".meta") = None ∧
        (∀ n, n ≠ prefix +:+ ".meta" → n ≠ prefix +:+ ".data" →
              n ≠ prefix +:+ ".next" → n ≠ prefix +:+ ".used" →
              wFS w' !! n = wFS w !! n) ∧
        (∀ n, locked w' n = locked w n) ∧
        wOpen w' = (wOpen w ++ [mkOpenFile (prefix +:+ ".meta") true true])%list
  | None => DeleteAt c path prefix w = (None, w)
  end.
Proof.
  cases prefix w.
  all: try (exec; reflexivity).
  all: destruct (wFS w !! (prefix +:+ ".used")) as [ndu|] eqn:Hu.
  all: eexists; split; [exec; reflexivity|].
  all: repeat split; first [ lk | fs_frame | lock_frame | (wsimpl; reflexivity) ].
Qed.

(** C9: Delete takes the meta lock and removes [.data], [.next],
    [.used] and [.meta], so that no file of the entry is left.  That it
    took the lock shows in the table of file descriptions, which after
    Delete is the one before with one description more: of [.meta], granted
    the lock, and closed again, so that the locks held are as before.  When
    there is no [.meta] to lock, Delete returns nil, changes no file and
    opens nothing. *)
Theorem Delete_removes_entry c p w :
  match wFS w !! (prefix_of c p +:+ ".meta") with
  | Some _ =>
      ∃ w', Delete c p w = (None, w') ∧
        wOpen w' = (wOpen w ++ [mkOpenFile (prefix_of c p +:+ ".meta") true true])%list ∧
        wFS w' !! (prefix_of c p +:+ ".data") = None ∧
        wFS w' !! (prefix_of c p +:+ ".next") = None ∧
        wFS w' !! (prefix_of c p +:+ ".used") = None ∧
        wFS w' !! (prefix_of c p +:+ ".meta") = None ∧
        (∀ n, locked w' n = locked w n)
  | None =>
      ∃ w', Delete c p w = (None, w') ∧ wFS w' = wFS w ∧ wOpen w' = wOpen w
  end.
Proof.
  rewrite Delete_eq.
  destruct (located_same c p w) as (Hfs & Hop & _).
  pose proof (DeleteAt_spec c (cleaned p) (prefix_of c p) (located c p w)) as HD.
  rewrite Hfs in HD.
  destruct (wFS w !! (prefix_of c p +:+ ".meta")) as [ndm|] eqn:Hm.
  - destruct HD as (w' & ? & ? & ? & ? & ? & _ & Hl & Ho). exists w'.
    repeat split; try done.
    + by rewrite Ho, Hop.
    + intros n. by rewrite Hl, locked_located.
  - eauto.
Qed.

(** Expire sets the modification time of [.meta] to the Unix epoch and
    changes nothing else of the file; without a [.meta] it does nothing. *)
Lemma Expire_sets_epoch c p w :
  ∃ w', Expire c p w = (None, w') ∧
    wFS w' !! (prefix_of c p +:+ ".meta")
      = (λ nd, mkInode (iData nd) 0) <$> wFS w !! (prefix_of c p +:+ ".meta") ∧
    (∀ n, n ≠ prefix_of c p +:+ ".meta" → wFS w' !! n = wFS w !! n) ∧
    wCalls w' = wCalls w ∧ wNow w' = wNow w.
Proof.
  rewrite Expire_eq.
  destruct (located_same c p w) as (Hfs & _ & Hnow & _ & Hcalls).
  rewrite <- Hfs, <- Hnow, <- Hcalls.
  generalize (located c p w) (prefix_of c p); clear; intros w prefix.
  destruct (wFS w !! (prefix +:+ ".meta")) as [ndm|] eqn:Hm.
  all: eexists; split; [exec; reflexivity|].
  all: repeat split; first [ lk | fs_frame ].
Qed.

End Admin.

(** ** Runs of the test loader, and the places where the code departs
    from its documentation *)

(** [locate] on ["file"] in the cache rooted at /tmp/cache *)
Lemma file_prefix_eq (l : Loader unit) : prefix_of (cache0 l) "file" = file_prefix.
Proof. vm_compute. reflexivity. Qed.

(** TestBasic: a first read loads, a second is served from the cache; with
    an expiration of 1ns every read later than the last load loads again;
    back at no expiration the copy is served. *)
Lemma TestBasic :
  let c := cache0 (loaderFunc loadHello) in
  let first := "hello, /file #1" +:+ String "010" "" in
  let second := "hello, /file #2" +:+ String "010" "" in
  let third := "hello, /file #3" +:+ String "010" "" in
  let r1 := ReadFile c "file" disk0 in
  let r2 := ReadFile c "file" (advance 1 (snd r1)) in
  let r3 := ReadFile (SetExpiration c 1) "file" (advance 1 (snd r2)) in
  let r4 := ReadFile (SetExpiration c 1) "file" (advance 1 (snd r3)) in
  let r5 := ReadFile (SetExpiration (SetExpiration c 1) 0) "file" (advance 1 (snd r4)) in
  fst r1 = Ok (Raw first) ∧ fst r2 = Ok (Raw first) ∧ fst r3 = Ok (Raw second) ∧
  fst r4 = Ok (Raw third) ∧ fst r5 = Ok (Raw third) ∧
  length (wCalls (snd r5)) = 3%nat.
Proof. vm_compute. repeat split; reflexivity. Qed.

(** C1, where the code departs from it: with no expiration period set,
    Expire succeeds and sets the modification time of [.meta] to the
    epoch, and the next Open still answers from the cached copy without
    calling the loader. *)
Theorem Expire_ignored_without_expiration :
  let c := cache0 (loaderFunc loadHello) in
  let w1 := snd (ReadFile c "file" disk0) in
  let e := Expire c "file" w1 in
  let r := ReadFile c "file" (advance 1 (snd e)) in
  expiration c = 0 ∧
  fst e = None ∧
  iModTime <$> wFS (snd e) !! (file_prefix +:+ ".meta") = Some (time_Unix 0 0) ∧
  fst r = Ok (Raw ("hello, /file #1" +:+ String "010" "")) ∧
  wCalls (snd r) = wCalls w1.
Proof. vm_compute. repeat split; reflexivity. Qed.

(** C3, where the code departs from it: with a limit of ten bytes, two
    opens install thirteen bytes each and both copies stay. *)
Theorem data_limit_not_enforced :
  let c := SetMaxData (cache0 (loaderFunc loadHello)) 10 in
  let w1 := snd (Open c "a" disk0) in
  let w2 := snd (Open c "b" (advance 1 w1)) in
  maxData c = 10 ∧
  contents_len <$> (iData <$> wFS w2 !! (prefix_of c "a" +:+ ".data")) = Some 13 ∧
  contents_len <$> (iData <$> wFS w2 !! (prefix_of c "b" +:+ ".data")) = Some 13 ∧
  total_data_bytes w2 = 26.
Proof. vm_compute. repeat split; reflexivity. Qed.

(** C4, where the code departs from it: when the loader fails, Open
    returns the loader's error, has given the lock back and has left
    [.meta] empty as it made it, but [.next] is still there, with the
    bytes the loader wrote before it failed. *)
Theorem failed_load_leaves_next :
  let c := cache0 (loaderFunc loadBroken) in
  let o := Open c "file" disk0 in
  fst o = Err (ErrRemote "unexpected EOF") ∧
  locked (snd o) (file_prefix +:+ ".meta") = false ∧
  wFS (snd o) !! (file_prefix +:+ ".meta") = Some (mkInode (Raw "") 1000) ∧
  wFS (snd o) !! (file_prefix +:+ ".next") = Some (mkInode (Raw "hel") 1000).
Proof. vm_compute. repeat split; reflexivity. Qed.

Lemma Open_installs_loaded_file_witness :
  let c := cache0 (loaderFunc loadHello) in
  let o := Open c "file" disk0 in
  let written := "hello, /file #1" +:+ String "010" "" in
  wFS (snd o) !! (prefix_of c "file" +:+ ".next") = None ∧
  wFS (snd o) !! (prefix_of c "file" +:+ ".data") = Some (mkInode (Raw written) 1000) ∧
  wFS (snd o) !! (prefix_of c "file" +:+ ".meta")
    = Some (mkInode (Json {| mPath := "/file"; mCreateTime := 1000;
                             mRefreshTime := 1000; mLoad := Some "1" |}) 1000) ∧
  ∃ f, fst o = Ok f ∧ ioutil_ReadAll f (snd o) = (Ok (Raw written), snd o).
Proof.
  intros c o written.
  apply (Open_installs_loaded_file c "file" disk0 (fst o) (snd o)
           (mkLoadCall "/file" None (fst (loadHello "/file" None tt)))).
  - apply surjective_pairing.
  - vm_compute. reflexivity.
  - reflexivity.
  - reflexivity.
Defined.

Lemma Open_revalidated_witness :
  let w := advance 5 (snd (Open cache_gcs "bucket/hello" disk_gcs)) in
  let o := Open cache_gcs "bucket/hello" w in
  let pre := prefix_of cache_gcs "bucket/hello" in
  wFS w !! (pre +:+ ".data") = Some (mkInode (Raw "hello, world") 1000) ∧
  wFS (snd o) !! (pre +:+ ".data") = wFS w !! (pre +:+ ".data") ∧
  wFS (snd o) !! (pre +:+ ".next") = None ∧
  wFS (snd o) !! (pre +:+ ".meta")
    = Some (mkInode (Json {| mPath := "/bucket/hello"; mCreateTime := 1000;
                             mRefreshTime := 1005; mLoad := Some "v1" |}) 1005).
Proof.
  intros w o pre. split; [vm_compute; reflexivity|].
  apply (Open_revalidated cache_gcs "bucket/hello" w (fst o) (snd o)
           (mkLoadCall "/bucket/hello" (Some "v1") (mkLoadResult "" true (Some "v1") None))
           {| mPath := "/bucket/hello"; mCreateTime := 1000;
              mRefreshTime := 1000; mLoad := Some "v1" |}).
  - apply surjective_pairing.
  - vm_compute. reflexivity.
  - reflexivity.
  - reflexivity.
  - vm_compute. reflexivity.
  - vm_compute. reflexivity.
Defined.

Lemma Open_without_data_passes_no_token_witness :
  let c := cache0 (loaderFunc loadHello) in
  let w := snd (os_Remove (file_prefix +:+ ".data") (snd (ReadFile c "file" disk0))) in
  stored_meta (prefix_of c "file") w
    = Ok {| mPath := "/file"; mCreateTime := 1000; mRefreshTime := 1000; mLoad := Some "1" |} ∧
  ∃ res, wCalls (snd (Open c "file" w))
         = (wCalls w ++ [mkLoadCall "/file" None res])%list.
Proof.
  intros c w. split; [vm_compute; reflexivity|].
  apply (Open_without_data_passes_no_token c "file" w
           {| mPath := "/file"; mCreateTime := 1000; mRefreshTime := 1000;
              mLoad := Some "1" |}).
  - vm_compute. reflexivity.
  - vm_compute. reflexivity.
Defined.

Lemma ReadFile_twice_witness :
  let c := SetExpiration (cache0 (loaderFunc loadHello)) 10 in
  let r1 := ReadFile c "file" disk0 in
  ∃ w2, ReadFile c "file" (advance 5 (snd r1))
          = (Ok (Raw ("hello, /file #1" +:+ String "010" "")), w2) ∧
        wCalls w2 = wCalls (snd r1) ∧
        (length (wCalls (snd r1)) ≤ length (wCalls disk0) + 1)%nat.
Proof.
  intros c r1.
  apply (ReadFile_twice c "file" disk0 _ (snd r1) 5).
  - vm_compute. reflexivity.
  - right. eexists. split; [vm_compute; reflexivity | vm_compute; reflexivity].
Defined.

(** ** More of what the operations do, and how they compose *)
Section More.
Context {S : Type}.
Implicit Types (w : World S) (c : Cache S).

(** Open changes no file outside the entry's [.meta], [.data] and
    [.next]. *)
Theorem Open_touches_only_its_entry c p w n :
  n ≠ prefix_of c p +:+ ".meta" →
  n ≠ prefix_of c p +:+ ".data" →
  n ≠ prefix_of c p +:+ ".next" →
  wFS (snd (Open c p w)) !! n = wFS w !! n.
Proof.
  intros H1 H2 H3. rewrite Open_eq.
  open_cases c p w; rewrite Heq; cbn [snd].
  all: destruct Hfr as (_ & _ & Hfr & _); rewrite Hfr by done; by rewrite Hfs.
Qed.

(** Whatever way Open returns, the lock it took on [.meta] is given
    back: the locks held after are the locks held before. *)
Theorem Open_releases_lock c p w n :
  locked (snd (Open c p w)) n = locked w n.
Proof.
  rewrite Open_eq.
  open_cases c p w; rewrite Heq; cbn [snd].
  all: destruct Hfr as (_ & _ & _ & Hl); by rewrite Hl, locked_located.
Qed.

(** One Open calls the loader once at most, and with the cleaned path. *)
Theorem Open_calls_loader_at_most_once c p w :
  wCalls (snd (Open c p w)) = wCalls w ∨
  ∃ tok res, wCalls (snd (Open c p w))
             = (wCalls w ++ [mkLoadCall (cleaned p) tok res])%list.
Proof.
  rewrite Open_eq.
  open_cases c p w; rewrite Heq; cbn [snd]; rewrite Hc, Hcalls; eauto.
Qed.

(** A handle returned by Open is an open handle on [.data], and [.meta]
    and [.data] are both there. *)
Theorem Open_returns_data_handle c p w f w' :
  Open c p w = (Ok f, w') →
  is_Some (wFS w' !! (prefix_of c p +:+ ".meta")) ∧
  ∃ nd, wFS w' !! (prefix_of c p +:+ ".data") = Some nd ∧
        ioutil_ReadAll f w' = (Ok (iData nd), w').
Proof.
  intros HO.
  destruct (Open_Ok_inv _ _ _ _ _ HO) as (ndm & ndd & Hm & Hd & Hh & _).
  split; [eauto|]. exists ndd. split; [done|].
  erewrite ioutil_ReadAll_open; eauto.
Qed.

(** With no expiration set, a [.data] file without [.meta] is served as
    it is: Open makes an empty [.meta] and returns the data without calling
    the loader. *)
Theorem Open_serves_data_without_meta c p w ndd :
  wFS w !! (prefix_of c p +:+ ".meta") = None →
  wFS w !! (prefix_of c p +:+ ".data") = Some ndd →
  expiration c = 0 →
  ∃ f w', Open c p w = (Ok f, w') ∧
    ioutil_ReadAll f w' = (Ok (iData ndd), w') ∧
    wCalls w' = wCalls w ∧
    iData <$> wFS w' !! (prefix_of c p +:+ ".meta") = Some (Raw "").
Proof.
  intros Hm Hd Hexp. rewrite Open_eq.
  destruct (located_same c p w) as (Hfs & _ & Hnow & _ & Hcalls).
  assert (Hs : served c (prefix_of c p) (located c p w) = true).
  { rewrite served_located. unfold served, fresh_at. rewrite Hd, Hm, Hexp. reflexivity. }
  destruct (OpenAt_served c (cleaned p) _ _ Hs)
    as (f & w' & Heq & Hh & Hc & _ & Hmeta & Hdata & _).
  exists f, w'. split; [done|].
  unfold meta_after in Hmeta. rewrite Hfs, Hm, Hnow in Hmeta. rewrite Hfs, Hd in Hdata.
  repeat split; [|congruence|by rewrite Hmeta].
  erewrite ioutil_ReadAll_open; eauto.
Qed.

(** Metadata that does not decode stops Open: it returns the decoding
    error wrapped, calls no loader and changes no file, so the entry stays
    as it is. *)
Theorem Open_fails_on_unreadable_meta c p w e :
  served c (prefix_of c p) w = false →
  stored_meta (prefix_of c p) w = Err e →
  ∃ w', Open c p w = (Err (Errorf "reading metadata file: %v" e), w') ∧
        wCalls w' = wCalls w ∧ wFS w' = wFS w.
Proof.
  intros Hs Hp. rewrite Open_eq.
  destruct (located_same c p w) as (Hfs & _ & _ & _ & Hcalls).
  rewrite <- (served_located c p) in Hs. rewrite <- (stored_meta_located c p) in Hp.
  destruct (OpenAt_corrupt c (cleaned p) _ _ _ Hs Hp) as (w' & Heq & Hc & _ & Hsame & _).
  exists w'. repeat split; congruence.
Qed.

(** A copy that has expired is revalidated: the loader is called once,
    with the token stored in [.meta]. *)
Theorem Open_revalidates_expired_copy c p w ndm ndd m0 :
  wFS w !! (prefix_of c p +:+ ".meta") = Some ndm →
  wFS w !! (prefix_of c p +:+ ".data") = Some ndd →
  iData ndm = Json m0 →
  expiration c ≠ 0 →
  iModTime ndm + expiration c ≤ wNow w →
  ∃ res, wCalls (snd (Open c p w))
         = (wCalls w ++ [mkLoadCall (cleaned p) (mLoad m0) res])%list.
Proof.
  intros Hm Hd Hj Hz Hexp. rewrite Open_eq.
  assert (Hs : served c (prefix_of c p) w = false).
  { unfold served, fresh_at. rewrite Hd, Hm.
    apply orb_false_iff. split; [by apply Z.eqb_neq | apply Z.ltb_ge; lia]. }
  assert (Hp : stored_meta (prefix_of c p) w = Ok m0).
  { unfold stored_meta. rewrite Hm, Hj. reflexivity. }
  open_cases c p w; rewrite Heq; cbn [snd]; rewrite Hc, Hcalls.
  1: { rewrite served_located in *. congruence. }
  4: { rewrite stored_meta_located in *. congruence. }
  all: rewrite stored_meta_located in *.
  all: match goal with
       | H1 : stored_meta _ _ = Ok ?a, H2 : stored_meta _ _ = Ok ?b |- _ =>
           assert (b = a) as -> by congruence
       end.
  all: unfold prior_token; rewrite Hfs, Hd; eauto.
Qed.

(** When the loader fails, Open returns its error; [.meta] is not
    rewritten (it is as found, or empty if Open had to make it), [.data]
    is as it was, and [.next] is left holding what the loader wrote. *)
Theorem Open_failed_load c p w r w' call e :
  Open c p w = (r, w') →
  wCalls w' = (wCalls w ++ [call])%list →
  lrErr (lcResult call) = Some e →
  r = Err e ∧
  wFS w' !! (prefix_of c p +:+ ".meta") = Some (meta_after (prefix_of c p) w) ∧
  wFS w' !! (prefix_of c p +:+ ".data") = wFS w !! (prefix_of c p +:+ ".data") ∧
  wFS w' !! (prefix_of c p +:+ ".next")
    = Some (mkInode (Raw (lrWritten (lcResult call))) (wNow w)).
Proof.
  intros HO Hlog Herr. rewrite Open_eq in HO.
  open_cases c p w; rewrite Heq in HO; simplify_eq; rewrite Hc, Hcalls in Hlog.
  all: try (exfalso; by eapply no_growth).
  all: apply app_inv_head in Hlog; simplify_eq; cbn [lcResult] in *; try congruence.
  unfold meta_after in *. rewrite Hfs, Hnow in *. simplify_eq. done.
Qed.

(** A loader that reports the copy valid when there is no [.data] makes
    Open fail with a not-exist error, after the record has been written. *)
Theorem Open_valid_without_data c p w r w' call :
  Open c p w = (r, w') →
  wCalls w' = (wCalls w ++ [call])%list →
  lrCacheValid (lcResult call) = true →
  lrErr (lcResult call) = None →
  wFS w !! (prefix_of c p +:+ ".data") = None →
  r = Err (ENOENT (prefix_of c p +:+ ".data")) ∧
  wFS w' !! (prefix_of c p +:+ ".data") = None ∧
  ∃ m, wFS w' !! (prefix_of c p +:+ ".meta") = Some (mkInode (Json m) (wNow w)) ∧
       mLoad m = lrNewMeta (lcResult call).
Proof.
  intros HO Hlog Hvalid Herr Hd. rewrite Open_eq in HO.
  open_cases c p w; rewrite Heq in HO; simplify_eq; rewrite Hc, Hcalls in Hlog.
  all: try (exfalso; by eapply no_growth).
  all: apply app_inv_head in Hlog; simplify_eq; cbn [lcResult] in *; try congruence.
  rewrite Hfs, Hnow in *. rewrite Hd in *.
  repeat split; try done. eauto.
Qed.

End More.

Section Compose.
Context {S : Type}.
Implicit Types (w : World S) (c : Cache S).


(** With an expiration period that is not zero and has passed since the
    epoch, Expire does force a refresh: the next Open calls the loader. *)
Theorem Expire_forces_reload c p w ndm m0 :
  wFS w !! (prefix_of c p +:+ ".meta") = Some ndm →
  iData ndm = Json m0 →
  expiration c ≠ 0 →
  expiration c ≤ wNow w →
  ∃ tok res, wCalls (snd (Open c p (snd (Expire c p w))))
             = (wCalls w ++ [mkLoadCall (cleaned p) tok res])%list.
Proof.
  intros Hm Hj Hz Hexp.
  destruct (Expire_sets_epoch c p w) as (w1 & -> & Hm1 & _ & Hc1 & Hn1). cbn [snd].
  rewrite Hm in Hm1. cbn [fmap option_fmap option_map] in Hm1.
  assert (Hs : served c (prefix_of c p) w1 = false).
  { unfold served, fresh_at.
    destruct (wFS w1 !! (prefix_of c p +:+ ".data")); [|done].
    rewrite Hm1. cbn [iModTime].
    apply orb_false_iff. split; [by apply Z.eqb_neq | apply Z.ltb_ge; lia]. }
  assert (Hp : stored_meta (prefix_of c p) w1 = Ok m0).
  { unfold stored_meta. rewrite Hm1. cbn [iData]. by rewrite Hj. }
  rewrite Open_eq.
  open_cases c p w1; rewrite Heq; cbn [snd]; rewrite Hc, Hcalls, Hc1.
  1: { rewrite served_located in *. congruence. }
  4: { rewrite stored_meta_located in *. congruence. }
  all: eauto.
Qed.

(** The token a load returns is the token the next refresh passes on: after
    an Open that called the loader and returned a handle, an Open of the
    same path that is not served from the cache calls the loader with the
    token of the first call. *)
Theorem token_round_trip c p w f w1 call dt :
  Open c p w = (Ok f, w1) →
  wCalls w1 = (wCalls w ++ [call])%list →
  served c (prefix_of c p) (advance dt w1) = false →
  ∃ res, wCalls (snd (Open c p (advance dt w1)))
         = (wCalls w1 ++ [mkLoadCall (cleaned p) (lrNewMeta (lcResult call)) res])%list.
Proof.
  intros HO Hlog Hs.
  assert (∃ m nd, wFS w1 !! (prefix_of c p +:+ ".meta")
                   = Some (mkInode (Json m) (wNow w)) ∧
                 mLoad m = lrNewMeta (lcResult call) ∧
                 wFS w1 !! (prefix_of c p +:+ ".data") = Some nd)
    as (m & nd & Hm & Hl & Hd).
  { rewrite Open_eq in HO.
    open_cases c p w; rewrite Heq in HO; simplify_eq; rewrite Hc, Hcalls in Hlog.
    all: try (exfalso; by eapply no_growth).
    all: apply app_inv_head in Hlog; simplify_eq; cbn [lcResult] in *.
    - destruct (wFS (located c p w) !! (prefix_of c p +:+ ".data")) eqn:Hd0;
        [|discriminate].
      rewrite Hnow in *. eexists _, _. split; [exact Hmeta|]. split; [done|].
      by rewrite Hdata.
    - rewrite Hnow in *. eexists _, _. split; [exact Hmeta|]. split; [done|]. exact Hdata. }
  set (w2 := advance dt w1) in *.
  assert (Hfs2 : wFS w2 = wFS w1) by reflexivity.
  assert (Hc2 : wCalls w2 = wCalls w1) by reflexivity.
  assert (Hp : stored_meta (prefix_of c p) w2 = Ok m).
  { unfold stored_meta. rewrite Hfs2, Hm. reflexivity. }
  rewrite Open_eq.
  open_cases c p w2; rewrite Heq; cbn [snd]; rewrite Hc, Hcalls, Hc2.
  1: { rewrite served_located in *. congruence. }
  4: { rewrite stored_meta_located in *. congruence. }
  all: rewrite stored_meta_located in *.
  all: match goal with
       | H1 : stored_meta _ _ = Ok ?a, H2 : stored_meta _ _ = Ok ?b |- _ =>
           assert (b = a) as -> by congruence
       end.
  all: unfold prior_token; rewrite Hfs, Hfs2, Hd, Hl; eauto.
Qed.

(** No negative caching: after an Open that failed in the loader with no
    [.data] on disk, the next Open calls the loader again, with no token,
    replacing the [.next] file the failure left behind. *)
Theorem Open_retries_after_failed_load c p w r w1 call e dt :
  Open c p w = (r, w1) →
  wCalls w1 = (wCalls w ++ [call])%list →
  lrErr (lcResult call) = Some e →
  wFS w !! (prefix_of c p +:+ ".data") = None →
  ∃ res, wCalls (snd (Open c p (advance dt w1)))
         = (wCalls w1 ++ [mkLoadCall (cleaned p) None res])%list.
Proof.
  intros HO Hlog Herr Hd.
  assert (wFS w1 !! (prefix_of c p +:+ ".data") = None ∧
          ∃ m, stored_meta (prefix_of c p) w1 = Ok m) as (Hd1 & m & Hp1).
  { rewrite Open_eq in HO.
    open_cases c p w; rewrite Heq in HO; simplify_eq; rewrite Hc, Hcalls in Hlog.
    all: try (exfalso; by eapply no_growth).
    all: apply app_inv_head in Hlog; simplify_eq; cbn [lcResult] in *; try congruence.
    split; [by rewrite Hdata, Hfs|].
    unfold stored_meta in *. rewrite Hmeta. unfold meta_after.
    destruct (wFS (located c p w) !! (prefix_of c p +:+ ".meta")); cbn [default]; eauto. }
  set (w2 := advance dt w1) in *.
  assert (Hfs2 : wFS w2 = wFS w1) by reflexivity.
  assert (Hc2 : wCalls w2 = wCalls w1) by reflexivity.
  rewrite Open_eq.
  open_cases c p w2; rewrite Heq; cbn [snd]; rewrite Hc, Hcalls, Hc2.
  - unfold served in *. rewrite Hfs, Hfs2, Hd1 in *. discriminate.
  - unfold prior_token. rewrite Hfs, Hfs2, Hd1. eauto.
  - unfold prior_token. rewrite Hfs, Hfs2, Hd1. eauto.
  - unfold prior_token. rewrite Hfs, Hfs2, Hd1. eauto.
  - rewrite stored_meta_located in *. unfold stored_meta in *. rewrite Hfs2 in *. congruence.
Qed.

(** Delete changes no file outside the entry's four names. *)
Theorem Delete_touches_only_its_entry c p w n :
  n ≠ prefix_of c p +:+ ".meta" → n ≠ prefix_of c p +:+ ".data" →
  n ≠ prefix_of c p +:+ ".next" → n ≠ prefix_of c p +:+ ".used" →
  wFS (snd (Delete c p w)) !! n = wFS w !! n.
Proof.
  intros H1 H2 H3 H4. rewrite Delete_eq.
  destruct (located_same c p w) as (Hfs & _).
  pose proof (DeleteAt_spec c (cleaned p) (prefix_of c p) (located c p w)) as HD.
  destruct (wFS (located c p w) !! (prefix_of c p +:+ ".meta")).
  - destruct HD as (w' & -> & _ & _ & _ & _ & Hfr & _). cbn [snd].
    rewrite Hfr by done. by rewrite Hfs.
  - rewrite HD. cbn [snd]. by rewrite Hfs.
Qed.

(** After Delete has removed an entry, the next Open starts from
    nothing: it calls the loader with no token. *)
Theorem Open_after_Delete_reloads c p w ndm :
  wFS w !! (prefix_of c p +:+ ".meta") = Some ndm →
  ∃ res, wCalls (snd (Open c p (snd (Delete c p w))))
         = (wCalls w ++ [mkLoadCall (cleaned p) None res])%list.
Proof.
  intros Hm. rewrite Delete_eq.
  destruct (located_same c p w) as (Hfs0 & _ & _ & _ & Hcalls0).
  pose proof (DeleteAt_spec c (cleaned p) (prefix_of c p) (located c p w)) as HD.
  rewrite Hfs0, Hm in HD.
  destruct HD as (w1 & HDel & Hd1 & _ & _ & Hm1 & _ & _). rewrite HDel. cbn [snd].
  assert (Hc1 : wCalls w1 = wCalls w).
  { rewrite <- Hcalls0. revert HDel. generalize (located c p w). intros w0 HDel.
    assert (∀ w0 w1 r, DeleteAt c (cleaned p) (prefix_of c p) w0 = (r, w1) →
                       wCalls w1 = wCalls w0) as Hgen.
    { clear. intros w0 w1 r. unfold DeleteAt, metaLock, bind, ret, os_OpenFile, new_File,
        syscall_Flock, File_Close, os_Remove, open_file.
      repeat (case_match; simplify_eq; cbn [wCalls with_open with_fs] in * );
        intros; simplify_eq; reflexivity. }
    eapply Hgen; eauto. }
  rewrite Open_eq.
  open_cases c p w1; rewrite Heq; cbn [snd]; rewrite Hc, Hcalls, Hc1.
  - unfold served in *. rewrite Hfs, Hd1 in *. discriminate.
  - unfold prior_token. rewrite Hfs, Hd1. eauto.
  - unfold prior_token. rewrite Hfs, Hd1. eauto.
  - unfold prior_token. rewrite Hfs, Hd1. eauto.
  - rewrite stored_meta_located in *. unfold stored_meta in *. rewrite Hm1 in *. discriminate.
Qed.

End Compose.

(** ** Handles *)
Section Handles.
Context {S : Type}.
Implicit Types (w : World S) (c : Cache S).

Lemma Open_handles c p w f w' :
  Open c p w = (Ok f, w') → only_opened w w' (Ok f).
Proof.
  intros HO. rewrite Open_eq in HO.
  assert (∀ f, open_file (located c p w) f = open_file w f) as Hsame.
  { intros f0. destruct (located_same c p w) as (_ & Ho & _). unfold open_file. by rewrite Ho. }
  open_cases c p w; rewrite Heq in HO; simplify_eq.
  all: intros f' o' H'; apply Hho in H'; rewrite Hsame in H'; exact H'.
Qed.

Lemma ReadFile_handles c p w b w' f o :
  ReadFile c p w = (Ok b, w') →
  open_file w' f = Some o → open_file w f = Some o.
Proof.
  unfold ReadFile, defer, bind, ret.
  destruct (Open c p w) as [[f0|e] w1] eqn:HO; [|discriminate].
  pose proof (Open_handles _ _ _ _ _ HO) as Hh.
  assert (Hrd : snd (ioutil_ReadAll f0 w1) = w1).
  { unfold ioutil_ReadAll. repeat case_match; reflexivity. }
  destruct (ioutil_ReadAll f0 w1) as [rd w1']. cbn [snd] in Hrd. subst w1'.
  unfold File_Close.
  destruct (open_file w1 f0) as [o0|] eqn:Ho; intros HR; simplify_eq.
  - intros H. destruct (decide (f = f0)) as [->|Hne].
    + exfalso. revert H. unfold open_file in *. cbn [wOpen with_open].
      destruct (wOpen w1 !! f0) eqn:Hl; [|discriminate].
      rewrite list_lookup_insert_eq by (by eapply lookup_lt_Some). discriminate.
    + assert (open_file w1 f = Some o) as H1.
      { revert H. unfold open_file. cbn [wOpen with_open].
        by rewrite list_lookup_insert_ne by done. }
      destruct (Hh _ _ H1) as [?|?]; [congruence | done].
  - intros H. destruct (Hh _ _ H) as [?|?]; [|done]. simplify_eq.
Qed.

(** When Open returns a file, that file is the only handle it leaves
    open that was not open before: the handle that held the lock, the
    handle on [.next] and the handle of the freshness check are closed. *)
Theorem Open_leaves_one_handle c p w f w' f' o :
  Open c p w = (Ok f, w') →
  open_file w' f' = Some o →
  f' = f ∨ open_file w f' = Some o.
Proof.
  intros HO H. destruct (Open_handles _ _ _ _ _ HO _ _ H) as [E|E]; [|by right].
  left. congruence.
Qed.

(** A ReadFile that returns the bytes leaves no handle open that was not
    open before. *)
Theorem ReadFile_leaves_no_handle c p w b w' f o :
  ReadFile c p w = (Ok b, w') →
  open_file w' f = Some o → open_file w f = Some o.
Proof. apply ReadFile_handles. Qed.

(** A LoadX509KeyPair that returns a key pair leaves no handle open that
    was not open before. *)
Theorem LoadX509KeyPair_leaves_no_handle {Cert : Type}
    (X509KeyPair : contents → contents → result Cert) c certFile keyFile w cert w' f o :
  LoadX509KeyPair X509KeyPair c certFile keyFile w = (Ok cert, w') →
  open_file w' f = Some o → open_file w f = Some o.
Proof.
  unfold LoadX509KeyPair, bind, ret.
  destruct (ReadFile c certFile w) as [[b1|e] w1] eqn:H1; [|discriminate].
  destruct (ReadFile c keyFile w1) as [[b2|e] w2] eqn:H2; [|discriminate].
  intros HR H. simplify_eq.
  eapply ReadFile_handles; [exact H1|]. eapply ReadFile_handles; [exact H2|]. exact H.
Qed.

End Handles.


(** ** Where [locate] puts an entry *)

Lemma substring_length (s : string) (n m : nat) :
  (n + m ≤ String.length s)%nat → String.length (substring n m s) = m.
Proof.
  revert n m. induction s as [|a s IH]; intros [|n] [|m] H; cbn in *; try lia; try done.
  - f_equal. apply IH. lia.
  - apply IH. lia.
  - apply IH. lia.
Qed.

Lemma substring_all (s : string) : substring 0 (String.length s) s = s.
Proof. induction s as [|a s IH]; cbn; [done|]. by rewrite IH. Qed.

Lemma substring_split (s : string) (n : nat) :
  (n ≤ String.length s)%nat →
  substring 0 n s +:+ substring n (String.length s - n) s = s.
Proof.
  revert n. induction s as [|a s IH]; intros [|n] H; cbn in *; try lia; try done.
  - change (String a (substring 0 (String.length s) s) = String a s).
    f_equal. apply substring_all.
  - change (String a (substring 0 n s +:+ substring n (String.length s - n) s)
            = String a s).
    f_equal. apply IH. lia.
Qed.

Lemma append_nil_l (s : string) : "" +:+ s = s.
Proof. reflexivity. Qed.

Lemma append_cons (a : ascii) (s t : string) : String a s +:+ t = String a (s +:+ t).
Proof. reflexivity. Qed.

Lemma append_nil_r (s : string) : s +:+ "" = s.
Proof. induction s as [|a s IH]; [reflexivity|]. by rewrite append_cons, IH. Qed.

Lemma append_assoc (s1 s2 s3 : string) : (s1 +:+ s2) +:+ s3 = s1 +:+ s2 +:+ s3.
Proof.
  induction s1 as [|a s1 IH]; [reflexivity|]. by rewrite !append_cons, IH.
Qed.

Lemma hex_length (bs : list Z) : String.length (sha1.hex bs) = (2 * length bs)%nat.
Proof. induction bs as [|b bs IH]; cbn [sha1.hex String.length length]; [done|]. lia. Qed.

Lemma Sum_length (s : string) : length (sha1.Sum s) = 20%nat.
Proof.
  unfold sha1.Sum. cbv zeta.
  destruct (sha1.blocks _ _ _) as [[[[h0 h1] h2] h3] h4].
  rewrite !length_app. reflexivity.
Qed.

Lemma be_bytes_range (n : nat) (x : Z) : Forall (λ b, 0 ≤ b < 256) (sha1.be_bytes n x).
Proof.
  induction n as [|n IH]; cbn [sha1.be_bytes]; constructor; [|done].
  change 0xFF with (Z.ones 8). rewrite Z.land_ones by lia.
  apply Z.mod_pos_bound. lia.
Qed.

Lemma Sum_range (s : string) : Forall (λ b, 0 ≤ b < 256) (sha1.Sum s).
Proof.
  unfold sha1.Sum. cbv zeta.
  destruct (sha1.blocks _ _ _) as [[[[h0 h1] h2] h3] h4].
  rewrite !Forall_app. repeat split; apply be_bytes_range.
Qed.

Lemma hex_digit_plain (x : Z) :
  0 ≤ x < 16 →
  negb (Ascii.eqb (sha1.hex_digit x) "/") && negb (Ascii.eqb (sha1.hex_digit x) ".") = true.
Proof.
  intros H.
  assert (x = 0 ∨ x = 1 ∨ x = 2 ∨ x = 3 ∨ x = 4 ∨ x = 5 ∨ x = 6 ∨ x = 7 ∨
          x = 8 ∨ x = 9 ∨ x = 10 ∨ x = 11 ∨ x = 12 ∨ x = 13 ∨ x = 14 ∨ x = 15)
    as Hx by lia.
  repeat (destruct Hx as [->|Hx]; [reflexivity|]). subst x. reflexivity.
Qed.

Lemma hex_plain (bs : list Z) :
  Forall (λ b, 0 ≤ b < 256) bs → plain_element (sha1.hex bs) = true.
Proof.
  induction 1 as [|b bs Hb _ IH]; [reflexivity|].
  cbn [sha1.hex plain_element].
  rewrite hex_digit_plain, hex_digit_plain, IH; [reflexivity| |].
  - change 0xF with (Z.ones 4). rewrite Z.land_ones by lia. apply Z.mod_pos_bound. lia.
  - rewrite Z.shiftr_div_pow2 by lia. change (2 ^ 4) with 16.
    split; [apply Z.div_pos; lia | apply Z.div_lt_upper_bound; lia].
Qed.

Lemma substring_plain (n m : nat) (s : string) :
  plain_element s = true → plain_element (substring n m s) = true.
Proof.
  revert n m. induction s as [|a s IH]; intros [|n] [|m] H; cbn [substring plain_element] in *;
    try done.
  - apply andb_true_iff in H as [-> H]. cbn [andb]. by apply IH.
  - apply andb_true_iff in H as [_ H]. by apply IH.
  - apply andb_true_iff in H as [_ H]. by apply IH.
Qed.

Lemma elements_app (cur s t : string) :
  pathpkg.elements cur (s +:+ String "/" t)
  = (pathpkg.elements cur s ++ pathpkg.elements "" t)%list.
Proof.
  revert cur. induction s as [|a s IH]; intros cur.
  - rewrite append_nil_l. reflexivity.
  - rewrite append_cons. cbn [pathpkg.elements].
    destruct (Ascii.eqb a "/"); [by rewrite IH | apply IH].
Qed.

Lemma elements_plain (cur s : string) :
  plain_element s = true → pathpkg.elements cur s = [cur +:+ s].
Proof.
  revert cur. induction s as [|a s IH]; intros cur H; cbn [pathpkg.elements plain_element] in *.
  - by rewrite append_nil_r.
  - apply andb_true_iff in H as [Ha H]. apply andb_true_iff in Ha as [Ha _].
    apply negb_true_iff in Ha. rewrite Ha, IH by done.
    by rewrite append_assoc.
Qed.

Lemma step_plain (st : list string) (s : string) :
  plain_element s = true → s ≠ "" →
  pathpkg.step st s = s :: st ∧ pathpkg.step_rel st s = s :: st.
Proof.
  intros H Hne. destruct s as [|a s]; [done|].
  cbn [plain_element] in H.
  apply andb_true_iff in H as [Ha _]. apply andb_true_iff in Ha as [_ Ha].
  apply negb_true_iff in Ha.
  unfold pathpkg.step, pathpkg.step_rel. cbn [String.eqb]. rewrite Ha. done.
Qed.

(** a clean path stays clean when a plain element is joined to it *)
Lemma Clean_append_plain (d a : string) :
  pathpkg.Clean d = d → d ≠ "/" → d ≠ "." →
  plain_element a = true → a ≠ "" →
  pathpkg.Clean (d +:+ "/" +:+ a) = d +:+ "/" +:+ a.
Proof.
  intros Hc Hr Hp Ha Hne.
  assert (Hd : d ≠ "") by (intros ->; discriminate Hc).
  assert (Hroot : pathpkg.rooted (d +:+ "/" +:+ a) = pathpkg.rooted d).
  { destruct d as [|x d]; [done|]. reflexivity. }
  destruct (step_plain (foldl pathpkg.step [] (pathpkg.elements "" d)) a Ha Hne)
    as [Hs _].
  destruct (step_plain (foldl pathpkg.step_rel [] (pathpkg.elements "" d)) a Ha Hne)
    as [_ Hs'].
  unfold pathpkg.Clean in *. rewrite Hroot.
  change ("/" +:+ a) with (String "/" a).
  rewrite elements_app, (elements_plain "" a Ha), append_nil_l, !foldl_snoc, Hs, Hs'.
  cbn [rev]. 
  destruct (pathpkg.rooted d).
  - destruct (rev (foldl pathpkg.step [] (pathpkg.elements "" d))) as [|e es]; [done|].
    cbn [app]. rewrite <- app_comm_cons || idtac.
    change (foldl (λ acc e0, acc +:+ "/" +:+ e0) "" ((e :: es) ++ [a])
            = d +:+ String "/" a).
    rewrite foldl_snoc, Hc. reflexivity.
  - destruct (rev (foldl pathpkg.step_rel [] (pathpkg.elements "" d))) as [|e es]; [done|].
    cbn [app]. rewrite foldl_snoc, Hc. reflexivity.
Qed.

Lemma joined_not_short (d a : string) : d ≠ "" → a ≠ "" →
  d +:+ "/" +:+ a ≠ "/" ∧ d +:+ "/" +:+ a ≠ ".".
Proof.
  intros Hd Ha. destruct d as [|x [|y d]]; [done| |]; destruct a as [|z a]; try done.
Qed.

(** In a cache whose directory name is clean (and is neither the root
    nor the current directory), [locate] returns the cleaned path and the
    prefix [dir/abc/rest], where [abc] are the first three and [rest] the
    other thirty-seven of the forty hexadecimal digits of the SHA-1 of
    the cleaned path. *)
Theorem locate_layout {S : Type} (c : Cache S) (p : string) (w : World S) :
  pathpkg.Clean (dir c) = dir c → dir c ≠ "/" → dir c ≠ "." →
  ∃ a b, fst (locate c p w)
         = (pathpkg.Clean ("/" +:+ p), dir c +:+ "/" +:+ a +:+ "/" +:+ b) ∧
         a +:+ b = sha1.hex (sha1.Sum (pathpkg.Clean ("/" +:+ p))) ∧
         String.length a = 3%nat ∧ String.length b = 37%nat.
Proof.
  intros Hc Hr Hp.
  assert (Hd : dir c ≠ "") by (intros E; rewrite E in Hc; discriminate Hc).
  rewrite locate_eq. cbn [fst]. unfold prefix_of, cleaned. cbv zeta.
  set (h := sha1.hex (sha1.Sum (pathpkg.Clean ("/" +:+ p)))).
  assert (Hh : String.length h = 40%nat).
  { unfold h. rewrite hex_length, Sum_length. reflexivity. }
  assert (Hpl : plain_element h = true) by apply hex_plain, Sum_range.
  set (a := substring 0 3 h). set (b := substring 3 (String.length h - 3) h).
  assert (Ha : String.length a = 3%nat) by (apply substring_length; lia).
  assert (Hb : String.length b = 37%nat) by (unfold b; rewrite substring_length; lia).
  assert (Hane : a ≠ "") by (intros E; rewrite E in Ha; discriminate).
  assert (Hbne : b ≠ "") by (intros E; rewrite E in Hb; discriminate).
  exists a, b. repeat split; try done.
  - f_equal. unfold filepath_Join.
    rewrite !filter_cons_True by done.
    cbn [filter list_filter foldl].
    pose proof (Clean_append_plain (dir c) a Hc Hr Hp (substring_plain _ _ _ Hpl) Hane) as H1.
    destruct (joined_not_short (dir c) a Hd Hane) as [H2 H3].
    rewrite (Clean_append_plain _ b H1 H2 H3 (substring_plain _ _ _ Hpl) Hbne).
    by rewrite !append_assoc.
  - apply substring_split. lia.
Qed.


(** ** The http.FileSystem over the cache *)

Lemma substring_3_2 (s : string) (n : nat) :
  substring n 3 s = "/.." → substring n 2 s = "/.".
Proof.
  revert n. induction s as [|a s IH]; intros [|n] H.
  - discriminate.
  - discriminate.
  - destruct s as [|b [|c s]]; try discriminate.
    cbn in H. cbn. congruence.
  - cbn in *. by apply IH.
Qed.

Lemma Contains_parent_reference (path : string) :
  strings_Contains path "/.." = true → strings_Contains path "/." = true.
Proof.
  unfold strings_Contains, strings_Index.
  destruct (index 0 "/.." path) as [m|] eqn:Hi; [|discriminate]. intros _.
  destruct (index 0 "/." path) as [k|] eqn:Hk; [done|]. exfalso.
  apply index_correct1 in Hi. cbn [String.length] in Hi.
  apply substring_3_2 in Hi.
  eapply (index_correct3 0 m "/." path); eauto with lia.
Qed.

Section HTTP.
Context {S : Type}.
Implicit Types (w : World S) (fs : fileSystem S).

Lemma fileSystem_Open_hidden fs path w :
  strings_Contains path "/cgi-bin/" = true ∨ strings_Contains path "/." = true →
  fileSystem_Open fs path w = (Err (ENOENT path), w).
Proof.
  intros H. unfold fileSystem_Open.
  destruct H as [-> | ->]; [reflexivity|]. by rewrite orb_true_r.
Qed.

(** A path with a parent reference after a slash (it contains [/..])
    does not reach the cache: it is answered not-exist, and no file
    changes, no handle is opened and the loader is not called.  A parent
    reference at the very start of the path is not of this kind (see
    [Dir_leading_parent_reference]). *)
Theorem Dir_blocks_parent_references fs path w :
  strings_Contains path "/.." = true →
  fileSystem_Open fs path w = (Err (ENOENT path), w) ∧
  os_IsNotExist (ENOENT path) = true.
Proof.
  intros H. apply Contains_parent_reference in H.
  split; [apply fileSystem_Open_hidden; by right | reflexivity].
Qed.

(** For any other path: the file of the cache when it opens; else the
    empty directory when [path/index.html] opens, whose handle is closed
    again; else the error of the first Open, not of the second. *)
Theorem Dir_Open_falls_back_to_index fs path w :
  strings_Contains path "/cgi-bin/" = false →
  strings_Contains path "/." = false →
  match Open (fs_c fs) (fs_root fs +:+ "/" +:+ path) w with
  | (Ok f, w1) => fileSystem_Open fs path w = (Ok (cachedFile f), w1)
  | (Err e, w1) =>
      match Open (fs_c fs) (fs_root fs +:+ "/" +:+ path +:+ "/index.html") w1 with
      | (Ok f, w2) =>
          ∃ w3, fileSystem_Open fs path w = (Ok emptyDir, w3) ∧
                open_file w3 f = None ∧ wFS w3 = wFS w2
      | (Err _, w2) => fileSystem_Open fs path w = (Err e, w2)
      end
  end.
Proof.
  intros H1 H2. unfold fileSystem_Open, bind, ret. rewrite H1, H2. cbn [orb].
  destruct (Open (fs_c fs) _ w) as [[f|e] w1]; [reflexivity|].
  destruct (Open (fs_c fs) _ w1) as [[f|e'] w2]; [|reflexivity].
  unfold File_Close.
  destruct (open_file w2 f) as [o|] eqn:Ho.
  - eexists. split; [reflexivity|]. split; [|reflexivity].
    unfold open_file in *. cbn [wOpen with_open].
    destruct (wOpen w2 !! f) eqn:Hl; [|discriminate].
    rewrite list_lookup_insert_eq by (by eapply lookup_lt_Some). reflexivity.
  - eexists. split; [reflexivity|]. split; [assumption | reflexivity].
Qed.

End HTTP.

(** ** The Google Cloud Storage loader *)

Lemma prefix_append (s t : string) : String.prefix s (s +:+ t) = true.
Proof.
  induction s as [|a s IH]; [by destruct t|].
  change (String.prefix (String a s) (String a (s +:+ t)) = true).
  cbn. destruct (ascii_dec a a); [exact IH | done].
Qed.

Section GCS.
Context {S : Type}.
Implicit Types (l : gcs_loader S) (s : S).

(** What Load returns keeps to the Loader's terms: a copy reported valid
    comes with no error, nothing written and the token that was passed in;
    an error comes with no token and never with a copy reported valid. *)
Theorem gcs_Load_keeps_contract l path meta s :
  let res := fst (gcs_Load l path meta s) in
  (lrCacheValid res = true →
   lrErr res = None ∧ lrNewMeta res = meta ∧ lrWritten res = "") ∧
  (lrErr res ≠ None → lrNewMeta res = None ∧ lrCacheValid res = false).
Proof.
  unfold gcs_Load. cbv zeta.
  repeat case_match; cbn [fst lrCacheValid lrErr lrNewMeta lrWritten];
    split; intros; try done.
Qed.

(** Load makes at most one request, and none for a path that names no
    object below a bucket.  A request it makes goes to the storage host and
    carries If-None-Match exactly when the token passed in is not empty. *)
Theorem gcs_Load_one_request l path meta s :
  snd (gcs_Load l path meta s) = s ∨
  ∃ req, snd (gcs_Load l path meta s) = snd (client l req s) ∧
         String.prefix "https://storage.googleapis.com/" (reqURL req) = true ∧
         reqIfNoneMatch req
         = match meta with
           | Some m => if String.eqb m "" then None else Some m
           | None => None
           end.
Proof.
  unfold gcs_Load. cbv zeta.
  destruct (strings_Index _ "/"); [|left; done].
  right. eexists. split.
  - destruct (client l _ s) as [[resp|e] s'] eqn:Hc; rewrite ?Hc;
      repeat case_match; reflexivity.
  - cbn [reqURL reqIfNoneMatch]. split.
    + apply prefix_append.
    + destruct meta as [[|a m]|]; reflexivity.
Qed.

End GCS.

(** ** The cache over Google Cloud Storage *)
Section GCSCache.
Context {S : Type}.
Implicit Types (w : World S) (c : Cache S) (l : gcs_loader S).

(** Once Load has got past its check of the path, it gets past it for
    the same path whatever the token and the remote side. *)
Lemma gcs_Load_request l path meta0 s0 meta s :
  lrErr (fst (gcs_Load l path meta0 s0)) = None →
  ∃ req,
    reqIfNoneMatch req
      = match meta with
        | Some m => if String.eqb m "" then None else Some m
        | None => None
        end ∧
    snd (gcs_Load l path meta s) = snd (client l req s) ∧
    ∀ resp, fst (client l req s) = Ok resp → StatusCode resp = 304 →
            fst (gcs_Load l path meta s) = mkLoadResult "" true meta None.
Proof.
  unfold gcs_Load. cbv zeta.
  destruct (strings_Index _ "/"); [intros _|discriminate].
  eexists. split; [|split].
  2: { destruct (client l _ s) as [[resp|e] s'] eqn:Hc; rewrite ?Hc;
       repeat case_match; reflexivity. }
  - cbn [reqIfNoneMatch]. destruct meta as [[|a m]|]; reflexivity.
  - intros resp Hc H304.
    destruct (client l _ s) as [[resp'|e] s'] eqn:Hc'; cbn [fst] in Hc; simplify_eq.
    rewrite H304. reflexivity.
Qed.

(** The entity tag comes back as If-None-Match.  In a cache over the
    storage loader, after an Open that loaded the object and got a tag
    that is not empty, an Open of the same path that is not served from the
    cache makes one request, carrying that tag; and when the answer is 304
    it returns the copy it has, [.data] untouched. *)
Theorem gcs_etag_round_trip c cl rt p w f w1 call etag dt :
  loader c = NewLoaderWithClient cl rt →
  Open c p w = (Ok f, w1) →
  wCalls w1 = (wCalls w ++ [call])%list →
  lrNewMeta (lcResult call) = Some etag →
  etag ≠ "" →
  served c (prefix_of c p) (advance dt w1) = false →
  ∃ req,
    wRemote (snd (Open c p (advance dt w1))) = snd (cl req (wRemote w1)) ∧
    reqIfNoneMatch req = Some etag ∧
    ∀ resp, fst (cl req (wRemote w1)) = Ok resp → StatusCode resp = 304 →
      (∃ f', fst (Open c p (advance dt w1)) = Ok f') ∧
      wFS (snd (Open c p (advance dt w1))) !! (prefix_of c p +:+ ".data")
        = wFS w1 !! (prefix_of c p +:+ ".data").
Proof.
  intros Hl HO Hlog Htag Hne Hs.
  assert (∃ m nd tok0 s0,
            wFS w1 !! (prefix_of c p +:+ ".meta") = Some (mkInode (Json m) (wNow w)) ∧
            mLoad m = Some etag ∧
            wFS w1 !! (prefix_of c p +:+ ".data") = Some nd ∧
            lrErr (fst (Load (loader c) (cleaned p) tok0 s0)) = None)
    as (m & nd & tok0 & s0 & Hm & Hml & Hd & Hok).
  { rewrite Open_eq in HO.
    open_cases c p w; rewrite Heq in HO; simplify_eq; rewrite Hc, Hcalls in Hlog.
    all: try (exfalso; by eapply no_growth).
    all: apply app_inv_head in Hlog; simplify_eq; cbn [lcResult] in *.
    - destruct (wFS (located c p w) !! (prefix_of c p +:+ ".data")) eqn:Hd0;
        [|discriminate].
      rewrite Hnow in *. eexists _, _, _, _. split; [exact Hmeta|]. split; [done|].
      split; [by rewrite Hdata|]. by rewrite HL.
    - rewrite Hnow in *. eexists _, _, _, _. split; [exact Hmeta|]. split; [done|].
      split; [exact Hdata|]. by rewrite HL. }
  rewrite Hl in Hok. cbn [NewLoaderWithClient Load] in Hok.
  destruct (gcs_Load_request _ _ _ _ (Some etag) (wRemote w1) Hok)
    as (req & Hinm & Hsnd & H304).
  assert (Hinm' : reqIfNoneMatch req = Some etag).
  { rewrite Hinm. destruct (String.eqb_spec etag ""); [done|reflexivity]. }
  cbn [client] in Hsnd, H304.
  exists req.
  set (w2 := advance dt w1) in *.
  assert (Hfs2 : wFS w2 = wFS w1) by reflexivity.
  assert (Hr2 : wRemote w2 = wRemote w1) by reflexivity.
  assert (Hp : stored_meta (prefix_of c p) w2 = Ok m).
  { unfold stored_meta. rewrite Hfs2, Hm. reflexivity. }
  rewrite Open_eq.
  open_cases c p w2; rewrite Heq; cbn [fst snd].
  1: { rewrite served_located in *. congruence. }
  4: { rewrite stored_meta_located in *. congruence. }
  all: rewrite stored_meta_located in *.
  all: match goal with
       | H1 : stored_meta _ _ = Ok ?a, H2 : stored_meta _ _ = Ok ?b |- _ =>
           assert (b = a) as -> by congruence
       end.
  all: unfold prior_token in HL; rewrite Hfs, Hfs2, Hd, Hml, Hrem, Hr2, Hl in HL.
  all: cbn [NewLoaderWithClient Load] in HL.
  all: rewrite HL in Hsnd, H304; cbn [fst snd] in Hsnd, H304.
  all: split; [congruence|]; split; [done|].
  all: intros resp Hresp Hcode; specialize (H304 resp Hresp Hcode); subst.
  all: cbn [lrErr lrCacheValid] in *; try discriminate.
  rewrite Hfs, Hfs2, Hd in *. destruct Hres as (f' & -> & _).
  split; [eauto | done].
Qed.

End GCSCache.

(** ** The properties at work on the test loaders *)

Lemma Open_touches_only_its_entry_witness :
  let c := cache0 (loaderFunc loadHello) in
  let w := snd (Open c "other" disk0) in
  let n := prefix_of c "other" +:+ ".data" in
  wFS (snd (Open c "file" w)) !! n = wFS w !! n.
Proof.
  intros c w n.
  apply (Open_touches_only_its_entry c "file" w n); by vm_compute.
Defined.

Lemma Open_returns_data_handle_witness :
  let c := cache0 (loaderFunc loadHello) in
  let o := Open c "file" disk0 in
  is_Some (wFS (snd o) !! (prefix_of c "file" +:+ ".meta")) ∧
  ∃ nd, wFS (snd o) !! (prefix_of c "file" +:+ ".data") = Some nd ∧
        ioutil_ReadAll 3%nat (snd o) = (Ok (iData nd), snd o).
Proof.
  intros c o.
  apply (Open_returns_data_handle c "file" disk0 3%nat (snd o)).
  vm_compute. reflexivity.
Defined.

Lemma Open_serves_data_without_meta_witness :
  let c := cache0 (loaderFunc loadHello) in
  let w := snd (os_Remove (file_prefix +:+ ".meta") (snd (ReadFile c "file" disk0))) in
  let ndd := mkInode (Raw ("hello, /file #1" +:+ String "010" "")) 1000 in
  ∃ f w', Open c "file" w = (Ok f, w') ∧
    ioutil_ReadAll f w' = (Ok (iData ndd), w') ∧
    wCalls w' = wCalls w ∧
    iData <$> wFS w' !! (prefix_of c "file" +:+ ".meta") = Some (Raw "").
Proof.
  intros c w ndd.
  apply (Open_serves_data_without_meta c "file" w ndd).
  - vm_compute. reflexivity.
  - vm_compute. reflexivity.
  - reflexivity.
Defined.

Lemma Open_fails_on_unreadable_meta_witness :
  let c := cache0 (loaderFunc loadHello) in
  let w := snd (ioutil_WriteFile (file_prefix +:+ ".meta") (Raw "{") disk0) in
  ∃ w', Open c "file" w = (Err (Errorf "reading metadata file: %v" ErrSyntax), w') ∧
        wCalls w' = wCalls w ∧ wFS w' = wFS w.
Proof.
  intros c w.
  apply (Open_fails_on_unreadable_meta c "file" w ErrSyntax).
  - vm_compute. reflexivity.
  - vm_compute. reflexivity.
Defined.

Lemma Open_revalidates_expired_copy_witness :
  let c := SetExpiration (cache0 (loaderFunc loadHello)) 1 in
  let w := advance 5 (snd (ReadFile c "file" disk0)) in
  ∃ res, wCalls (snd (Open c "file" w))
         = (wCalls w ++ [mkLoadCall (cleaned "file") (Some "1") res])%list.
Proof.
  intros c w.
  apply (Open_revalidates_expired_copy c "file" w
           (mkInode (Json {| mPath := "/file"; mCreateTime := 1000;
                             mRefreshTime := 1000; mLoad := Some "1" |}) 1000)
           (mkInode (Raw ("hello, /file #1" +:+ String "010" "")) 1000)
           {| mPath := "/file"; mCreateTime := 1000;
              mRefreshTime := 1000; mLoad := Some "1" |}).
  - vm_compute. reflexivity.
  - vm_compute. reflexivity.
  - reflexivity.
  - by vm_compute.
  - by vm_compute.
Defined.

Lemma Open_failed_load_witness :
  let c := cache0 (loaderFunc loadBroken) in
  let o := Open c "file" disk0 in
  fst o = Err (ErrRemote "unexpected EOF") ∧
  wFS (snd o) !! (prefix_of c "file" +:+ ".meta")
    = Some (meta_after (prefix_of c "file") disk0) ∧
  wFS (snd o) !! (prefix_of c "file" +:+ ".data")
    = wFS disk0 !! (prefix_of c "file" +:+ ".data") ∧
  wFS (snd o) !! (prefix_of c "file" +:+ ".next")
    = Some (mkInode (Raw "hel") (wNow disk0)).
Proof.
  intros c o.
  apply (Open_failed_load c "file" disk0 (fst o) (snd o)
           (mkLoadCall "/file" None (fst (loadBroken "/file" None tt)))
           (ErrRemote "unexpected EOF")).
  - apply surjective_pairing.
  - vm_compute. reflexivity.
  - reflexivity.
Defined.

Lemma Open_valid_without_data_witness :
  let c := cache0 (loaderFunc loadNotModified) in
  let o := Open c "file" disk0 in
  fst o = Err (ENOENT (prefix_of c "file" +:+ ".data")) ∧
  wFS (snd o) !! (prefix_of c "file" +:+ ".data") = None ∧
  ∃ m, wFS (snd o) !! (prefix_of c "file" +:+ ".meta")
         = Some (mkInode (Json m) (wNow disk0)) ∧
       mLoad m = Some "etag".
Proof.
  intros c o.
  apply (Open_valid_without_data c "file" disk0 (fst o) (snd o)
           (mkLoadCall "/file" None (fst (loadNotModified "/file" None tt)))).
  - apply surjective_pairing.
  - vm_compute. reflexivity.
  - reflexivity.
  - reflexivity.
  - vm_compute. reflexivity.
Defined.

Lemma Expire_forces_reload_witness :
  let c := SetExpiration (cache0 (loaderFunc loadHello)) 1 in
  let w := snd (ReadFile c "file" disk0) in
  ∃ tok res, wCalls (snd (Open c "file" (snd (Expire c "file" w))))
             = (wCalls w ++ [mkLoadCall (cleaned "file") tok res])%list.
Proof.
  intros c w.
  apply (Expire_forces_reload c "file" w
           (mkInode (Json {| mPath := "/file"; mCreateTime := 1000;
                             mRefreshTime := 1000; mLoad := Some "1" |}) 1000)
           {| mPath := "/file"; mCreateTime := 1000;
              mRefreshTime := 1000; mLoad := Some "1" |}).
  - vm_compute. reflexivity.
  - reflexivity.
  - by vm_compute.
  - by vm_compute.
Defined.

Lemma token_round_trip_witness :
  let c := SetExpiration (cache0 (loaderFunc loadHello)) 1 in
  let w1 := snd (Open c "file" disk0) in
  ∃ res, wCalls (snd (Open c "file" (advance 5 w1)))
         = (wCalls w1 ++ [mkLoadCall (cleaned "file") (Some "1") res])%list.
Proof.
  intros c w1.
  apply (token_round_trip c "file" disk0 3%nat w1
           (mkLoadCall "/file" None (fst (loadHello "/file" None tt))) 5).
  - vm_compute. reflexivity.
  - vm_compute. reflexivity.
  - vm_compute. reflexivity.
Defined.

Lemma Open_retries_after_failed_load_witness :
  let c := cache0 (loaderFunc loadBroken) in
  let w1 := snd (Open c "file" disk0) in
  ∃ res, wCalls (snd (Open c "file" (advance 1 w1)))
         = (wCalls w1 ++ [mkLoadCall (cleaned "file") None res])%list.
Proof.
  intros c w1.
  apply (Open_retries_after_failed_load c "file" disk0
           (fst (Open c "file" disk0)) w1
           (mkLoadCall "/file" None (fst (loadBroken "/file" None tt)))
           (ErrRemote "unexpected EOF") 1).
  - apply surjective_pairing.
  - vm_compute. reflexivity.
  - reflexivity.
  - vm_compute. reflexivity.
Defined.

Lemma Delete_touches_only_its_entry_witness :
  let c := cache0 (loaderFunc loadHello) in
  let w := snd (Open c "other" (snd (Open c "file" disk0))) in
  let n := prefix_of c "other" +:+ ".data" in
  wFS (snd (Delete c "file" w)) !! n = wFS w !! n.
Proof.
  intros c w n.
  apply (Delete_touches_only_its_entry c "file" w n); by vm_compute.
Defined.

Lemma Open_after_Delete_reloads_witness :
  let c := cache0 (loaderFunc loadHello) in
  let w := snd (ReadFile c "file" disk0) in
  ∃ res, wCalls (snd (Open c "file" (snd (Delete c "file" w))))
         = (wCalls w ++ [mkLoadCall (cleaned "file") None res])%list.
Proof.
  intros c w.
  apply (Open_after_Delete_reloads c "file" w
           (mkInode (Json {| mPath := "/file"; mCreateTime := 1000;
                             mRefreshTime := 1000; mLoad := Some "1" |}) 1000)).
  vm_compute. reflexivity.
Defined.


Lemma locate_layout_witness :
  let c := cache0 (loaderFunc loadHello) in
  ∃ a b, fst (locate c "file" disk0)
         = (pathpkg.Clean ("/" +:+ "file"), dir c +:+ "/" +:+ a +:+ "/" +:+ b) ∧
         a +:+ b = sha1.hex (sha1.Sum (pathpkg.Clean ("/" +:+ "file"))) ∧
         String.length a = 3%nat ∧ String.length b = 37%nat.
Proof.
  intros c. apply (locate_layout c "file" disk0); by vm_compute.
Defined.

(** The tests of [fileSystem.Open] look for a dot after a slash: a
    parent reference at the very start of the path has none before it, and
    the cache is asked for a path outside the root. *)
Lemma Dir_leading_parent_reference :
  let fs := Dir (cache0 (loaderFunc loadHello)) "/static" in
  lcPath <$> wCalls (snd (fileSystem_Open fs "../etc/passwd" disk0)) = ["/etc/passwd"].
Proof. vm_compute. reflexivity. Qed.

Lemma Open_leaves_one_handle_witness :
  let c := cache0 (loaderFunc loadHello) in
  let o := mkOpenFile (file_prefix +:+ ".data") false false in
  3%nat = 3%nat ∨ open_file disk0 3%nat = Some o.
Proof.
  intros c o.
  apply (Open_leaves_one_handle c "file" disk0 3%nat (snd (Open c "file" disk0)) 3%nat o).
  - vm_compute. reflexivity.
  - vm_compute. reflexivity.
Defined.

Lemma ReadFile_leaves_no_handle_witness :
  let c := cache0 (loaderFunc loadHello) in
  let w := snd (Open c "other" disk0) in
  let o := mkOpenFile (prefix_of c "other" +:+ ".data") false false in
  open_file w 3%nat = Some o.
Proof.
  intros c w o.
  apply (ReadFile_leaves_no_handle c "file" w
           (Raw ("hello, /file #1" +:+ String "010" "")) (snd (ReadFile c "file" w)) 3%nat o).
  - vm_compute. reflexivity.
  - vm_compute. reflexivity.
Defined.

Lemma LoadX509KeyPair_leaves_no_handle_witness :
  let c := cache0 (loaderFunc loadHello) in
  let w := snd (Open c "other" disk0) in
  let o := mkOpenFile (prefix_of c "other" +:+ ".data") false false in
  open_file w 3%nat = Some o.
Proof.
  intros c w o.
  apply (LoadX509KeyPair_leaves_no_handle (λ cert key, Ok (cert, key))
           c "cert.pem" "key.pem" w
           (Raw ("hello, /cert.pem #1" +:+ String "010" ""),
            Raw ("hello, /key.pem #1" +:+ String "010" ""))
           (snd (LoadX509KeyPair (λ cert key, Ok (cert, key)) c "cert.pem" "key.pem" w))
           3%nat o).
  - vm_compute. reflexivity.
  - vm_compute. reflexivity.
Defined.

Lemma Dir_blocks_parent_references_witness :
  let fs := Dir (cache0 (loaderFunc loadHello)) "/static" in
  fileSystem_Open fs "a/../../etc/passwd" disk0
    = (Err (ENOENT "a/../../etc/passwd"), disk0) ∧
  os_IsNotExist (ENOENT "a/../../etc/passwd") = true.
Proof.
  intros fs. apply (Dir_blocks_parent_references fs "a/../../etc/passwd" disk0).
  vm_compute. reflexivity.
Defined.

Lemma Dir_Open_falls_back_to_index_witness :
  let fs := Dir (cache0 (loaderFunc loadIndex)) "/static" in
  match Open (fs_c fs) (fs_root fs +:+ "/" +:+ "docs") disk0 with
  | (Ok f, w1) => fileSystem_Open fs "docs" disk0 = (Ok (cachedFile f), w1)
  | (Err e, w1) =>
      match Open (fs_c fs) (fs_root fs +:+ "/" +:+ "docs" +:+ "/index.html") w1 with
      | (Ok f, w2) =>
          ∃ w3, fileSystem_Open fs "docs" disk0 = (Ok emptyDir, w3) ∧
                open_file w3 f = None ∧ wFS w3 = wFS w2
      | (Err _, w2) => fileSystem_Open fs "docs" disk0 = (Err e, w2)
      end
  end.
Proof.
  intros fs. apply (Dir_Open_falls_back_to_index fs "docs" disk0).
  - vm_compute. reflexivity.
  - vm_compute. reflexivity.
Defined.

Lemma gcs_Load_keeps_contract_witness :
  let res := fst (gcs_Load (mk_gcs_loader one_object "") "bucket/hello" (Some "v1") []) in
  lrErr res = None ∧ lrNewMeta res = Some "v1" ∧ lrWritten res = "".
Proof.
  intros res.
  apply (proj1 (gcs_Load_keeps_contract (mk_gcs_loader one_object "")
                  "bucket/hello" (Some "v1") [])).
  vm_compute. reflexivity.
Defined.

Lemma gcs_etag_round_trip_witness :
  let w1 := snd (Open cache_gcs "bucket/hello" disk_gcs) in
  let o := Open cache_gcs "bucket/hello" (advance 5 w1) in
  ∃ req,
    wRemote (snd o) = snd (one_object req (wRemote w1)) ∧
    reqIfNoneMatch req = Some "v1" ∧
    ∀ resp, fst (one_object req (wRemote w1)) = Ok resp → StatusCode resp = 304 →
      (∃ f', fst o = Ok f') ∧
      wFS (snd o) !! (prefix_of cache_gcs "bucket/hello" +:+ ".data")
        = wFS w1 !! (prefix_of cache_gcs "bucket/hello" +:+ ".data").
Proof.
  intros w1 o.
  apply (gcs_etag_round_trip cache_gcs one_object "" "bucket/hello" disk_gcs 3%nat w1
           (mkLoadCall "/bucket/hello" None
              (mkLoadResult "hello, world" false (Some "v1") None)) "v1" 5).
  - reflexivity.
  - vm_compute. reflexivity.
  - vm_compute. reflexivity.
  - reflexivity.
  - discriminate.
  - vm_compute. reflexivity.
Defined.
